(** * Print job lifecycle of backend/app.py

    A shallow embedding of the job lifecycle code of [backend/app.py]:
    - [_run_ipp_print]: the protocol backend ([lp] through
      [subprocess.check_output]) and the scan of its output for a job id;
    - [_async_mock_complete]: the body of the detached completion thread;
    - [submit_print] and [job_status]: the two request handlers;
    - [init_db]: the retry loop at start-up;
    - [bearer_token]: the header test of [auth_required], up to the token
      it hands to [jwt.decode].

    Conventions.
    - A Python [str] is a [string]; a character is its code point below
      256, classified as Python classifies it ([str.isspace],
      [str.isdigit]).
    - A value that is [None] or a [str] is an [option string]; Python
      truthiness is written out ([truthy], [truthy_opt], [or_else]).
    - A call that can raise returns a [result]; [try ... except] is
      [try_except].
    - The table [print_jobs] is a finite map from the primary key [id] to
      the other columns, together with the next value of the key sequence.
      The columns [created_at] and [updated_at] are left out.
    - [subprocess.check_output], [time.time] and
      [werkzeug.utils.secure_filename] are not code of the repository: the
      first two are inputs of each request ([Env]), the last one is a
      parameter of the handlers. Faults of the file system are outside the
      model. [submit_print] takes the store to accept every value;
      [submit_print_db] is the handler with the commit as PostgreSQL
      performs it, and the two agree whenever that commit goes through
      ([submit_print_db_returns]). *)

From Stdlib Require Import String Ascii List ZArith Lia Bool DecimalString.
From Stdlib Require DecimalPos DecimalZ.
From stdpp Require Import base gmap strings list relations.

Local Open Scope string_scope.

(** ** Python strings *)

Module Py.

Definition truthy (s : string) : bool :=
  match s with
  | EmptyString => false
  | String _ _ => true
  end.

Definition truthy_opt (v : option string) : bool :=
  match v with
  | None => false
  | Some s => truthy s
  end.

(** [v or d] for [v] that is [None] or a [str]. *)
Definition or_else (v : option string) (d : string) : string :=
  match v with
  | Some s => if truthy s then s else d
  | None => d
  end.

(** [c.isspace()]: 9-13, 28-32, 0x85 and 0xA0 among the code points
    below 256. *)
Definition isspace_char (c : ascii) : bool :=
  let n := nat_of_ascii c in
  (((9 <=? n) && (n <=? 13)) || ((28 <=? n) && (n <=? 32))
   || (n =? 133) || (n =? 160))%nat.

(** [c.isdigit()]: 0-9 and the superscripts 0xB2, 0xB3, 0xB9. *)
Definition isdigit_char (c : ascii) : bool :=
  let n := nat_of_ascii c in
  (((48 <=? n) && (n <=? 57)) || (n =? 178) || (n =? 179) || (n =? 185))%nat.

Fixpoint all_chars (p : ascii -> bool) (s : string) : bool :=
  match s with
  | EmptyString => true
  | String c s' => p c && all_chars p s'
  end.

(** [s.isdigit()]: at least one character, all of them digits. *)
Definition isdigit (s : string) : bool := truthy s && all_chars isdigit_char s.

(** [c in s] for a one-character [c]. *)
Fixpoint contains (c : ascii) (s : string) : bool :=
  match s with
  | EmptyString => false
  | String d s' => Ascii.eqb c d || contains c s'
  end.

Definition push_token (tok : string) (rest : list string) : list string :=
  if truthy tok then tok :: rest else rest.

(** One pass of [s.split()]: the token that touches the start of [s]
    (empty when [s] starts with white space) and the tokens after it. *)
Fixpoint split_scan (s : string) : string * list string :=
  match s with
  | EmptyString => (EmptyString, [])
  | String c s' =>
      let '(tok, rest) := split_scan s' in
      if isspace_char c then (EmptyString, push_token tok rest)
      else (String c tok, rest)
  end.

(** [s.split()]: the maximal runs of characters that are not white
    space. *)
Definition split (s : string) : list string :=
  let '(tok, rest) := split_scan s in push_token tok rest.

(** [s.split(sep)] for a one-character [sep]; never the empty list. *)
Fixpoint split_sep (sep : ascii) (s : string) : list string :=
  match s with
  | EmptyString => [EmptyString]
  | String c s' =>
      if Ascii.eqb c sep then EmptyString :: split_sep sep s'
      else match split_sep sep s' with
           | [] => [String c EmptyString]
           | piece :: pieces => String c piece :: pieces
           end
  end.

(** [l[-1]]: an [IndexError] on the empty list. *)
Definition last_item (l : list string) : option string := List.last (map Some l) None.

Fixpoint lstrip (s : string) : string :=
  match s with
  | EmptyString => EmptyString
  | String c s' => if isspace_char c then lstrip s' else s
  end.

Fixpoint rstrip (s : string) : string :=
  match s with
  | EmptyString => EmptyString
  | String c s' =>
      match rstrip s' with
      | EmptyString => if isspace_char c then EmptyString else String c EmptyString
      | r => String c r
      end
  end.

(** [s.strip()]. *)
Definition strip (s : string) : string := rstrip (lstrip s).

(** [s.strip(chars)]. *)
Fixpoint lstrip_chars (chars : string) (s : string) : string :=
  match s with
  | EmptyString => EmptyString
  | String c s' => if contains c chars then lstrip_chars chars s' else s
  end.

Fixpoint rstrip_chars (chars : string) (s : string) : string :=
  match s with
  | EmptyString => EmptyString
  | String c s' =>
      match rstrip_chars chars s' with
      | EmptyString => if contains c chars then EmptyString else String c EmptyString
      | r => String c r
      end
  end.

Definition strip_chars (chars : string) (s : string) : string :=
  rstrip_chars chars (lstrip_chars chars s).

(** [sep.join(l)]. *)
Fixpoint join (sep : string) (l : list string) : string :=
  match l with
  | [] => EmptyString
  | [x] => x
  | x :: l' => x +:+ sep +:+ join sep l'
  end.

(** [s.replace(a, b)] for one-character [a] and [b]. *)
Fixpoint replace_char (a b : ascii) (s : string) : string :=
  match s with
  | EmptyString => EmptyString
  | String c s' => String (if Ascii.eqb c a then b else c) (replace_char a b s')
  end.

Fixpoint filter_chars (p : ascii -> bool) (s : string) : string :=
  match s with
  | EmptyString => EmptyString
  | String c s' => if p c then String c (filter_chars p s') else filter_chars p s'
  end.

(** [str(n)] for an [int]. *)
Definition str_of_int (n : Z) : string := NilZero.string_of_int (Z.to_int n).

(** [os.path.join(a, b)] under POSIX. *)
Definition path_join (a b : string) : string :=
  match b with
  | String "/" _ => b
  | _ =>
      match a with
      | EmptyString => b
      | _ => if String.eqb (substring (String.length a - 1) 1 a) "/"
             then a +:+ b else a +:+ "/" +:+ b
      end
  end.

(** [s.startswith(prefix)]. *)
Definition startswith (prefix s : string) : bool := String.prefix prefix s.

(** [s.split(sep, 1)] for a one-character [sep]: the text before the
    first [sep] and the text after it, or [s] alone. *)
Fixpoint split_once (sep : ascii) (s : string) : list string :=
  match s with
  | EmptyString => [EmptyString]
  | String c s' =>
      if Ascii.eqb c sep then [EmptyString; s']
      else match split_once sep s' with
           | [] => [String c EmptyString]
           | piece :: pieces => String c piece :: pieces
           end
  end.

(** [l[i]] for [i >= 0]: an [IndexError] past the end. *)
Definition item (l : list string) (i : nat) : option string := nth_error l i.

End Py.


(** ** Exceptions *)

(** What [subprocess.check_output] raises, as [_run_ipp_print] tells it
    apart: [CalledProcessError] (a non-zero exit, with the captured
    output) and any other subclass of [Exception], of which only [str(e)]
    is used. *)
Inductive exn : Type :=
| CalledProcessError (returncode : Z) (output : string)
| OtherException (message : string).

Inductive result (A : Type) : Type :=
| Return (a : A)
| Raise (e : exn).

Arguments Return {A} a.
Arguments Raise {A} e.

Definition bind {A B : Type} (c : result A) (k : A -> result B) : result B :=
  match c with
  | Return a => k a
  | Raise e => Raise e
  end.

Definition try_except {A : Type} (body : result A) (handler : exn -> result A) : result A :=
  match body with
  | Return a => Return a
  | Raise e => handler e
  end.

Notation "'let*' x ':=' c 'in' k" := (bind c (fun x => k))
  (at level 10, x pattern, c at level 100, k at level 200, only parsing).

(** ** Configuration and data model *)

Record Config : Type := {
  ENABLE_IPP : bool;
  PRINTER_URI : string;
  PRINTER_NAME : string;
  UPLOAD_DIR : string
}.

Inductive Status : Type := queued | printing | completed | failed.

(** The string stored in the column [status]. *)
Definition status_str (s : Status) : string :=
  match s with
  | queued => "queued"
  | printing => "printing"
  | completed => "completed"
  | failed => "failed"
  end.

#[global] Instance Status_eq_dec : EqDecision Status.
Proof. solve_decision. Defined.

Module PrintJob.
(** A row of [print_jobs] without its key [id] and its time stamps. *)
Record t : Type := mk {
  user_id : nat;
  filename : string;
  status : Status;
  error : option string;
  ipp_job_id : option string
}.

Definition set_status (v : Status) (job : t) : t :=
  mk (user_id job) (filename job) v (error job) (ipp_job_id job).
Definition set_error (v : option string) (job : t) : t :=
  mk (user_id job) (filename job) (status job) v (ipp_job_id job).
Definition set_ipp_job_id (v : option string) (job : t) : t :=
  mk (user_id job) (filename job) (status job) (error job) v.
End PrintJob.

(** The table and its key sequence. *)
Record DB : Type := {
  print_jobs : gmap nat PrintJob.t;
  next_id : nat
}.

(** [s.add(job); s.commit(); job.id] *)
Definition add_job (job : PrintJob.t) (d : DB) : DB * nat :=
  ({| print_jobs := <[next_id d := job]> (print_jobs d); next_id := S (next_id d) |},
   next_id d).

(** [job = s.get(PrintJob, job_id); if job: <update>; s.commit()] *)
Definition update_job (job_id : nat) (f : PrintJob.t -> PrintJob.t) (d : DB) : DB :=
  match print_jobs d !! job_id with
  | Some job => {| print_jobs := <[job_id := f job]> (print_jobs d); next_id := next_id d |}
  | None => d
  end.

(** The store, the completion threads started so far, by job id, and the
    handlers of [/api/print] that are between their two commits (inside
    [_run_ipp_print]), by job id, each with the path it saved the upload
    to. *)
Record State : Type := {
  db : DB;
  threads : list nat;
  handlers : gmap nat string
}.

Definition init : State :=
  {| db := {| print_jobs := ∅; next_id := 1 |}; threads := []; handlers := ∅ |}.

(** ** Requests and responses *)

(** What [auth_required] finds in the [Authorization] header. *)
Inductive Auth : Type :=
| NoBearer
| InvalidToken
| Bearer (user_id : nat) (username : string).

Record PrintRequest : Type := {
  auth : Auth;
  (** [request.files["file"].filename], when the part is there *)
  file : option string
}.

(** What a request reads from outside the program. *)
Record Env : Type := {
  now : Z;
  check_output : list string -> result string
}.

Inductive Response : Type :=
| JobId (job_id : nat)
| JobView (id : nat) (filename status : string) (error ipp_job_id : option string)
| Error (code : nat) (error : string).

Definition auth_required (a : Auth) : Response + nat :=
  match a with
  | NoBearer => inl (Error 401 "Unauthorized")
  | InvalidToken => inl (Error 401 "Invalid token")
  | Bearer user_id _ => inr user_id
  end.

(** ** The protocol backend *)

(** [part.split("-")[-1].isdigit()] guarded by ["-" in part]. *)
Definition is_job_token (part : string) : bool :=
  Py.contains "-" part
  && match Py.last_item (Py.split_sep "-" part) with
     | Some suffix => Py.isdigit suffix
     | None => false
     end.

(** The [for part in out.split()] loop with its [break]. *)
Fixpoint scan_parts (parts : list string) : option string :=
  match parts with
  | [] => None
  | part :: parts' =>
      if is_job_token part then Some (Py.strip part) else scan_parts parts'
  end.

Definition lp_command (cfg : Config) (local_path : string) : option (list string) :=
  if Py.truthy (PRINTER_NAME cfg) then
    Some ["lp"; "-d"; PRINTER_NAME cfg; local_path]
  else if Py.truthy (PRINTER_URI cfg) then
    Some ["lp"; "-o"; "printer-uri-supported=" +:+ PRINTER_URI cfg; local_path]
  else None.

Definition _run_ipp_print (cfg : Config) (check_output : list string -> result string)
    (local_path : string) : result (option string * option string) :=
  if negb (ENABLE_IPP cfg) then Return (None, None)
  else
    match lp_command cfg local_path with
    | None => Return (None, Some "No PRINTER_URI or PRINTER_NAME configured")
    | Some cmd =>
        try_except
          (let* out := check_output cmd in
           Return (scan_parts (Py.split out), None))
          (fun e =>
             match e with
             | CalledProcessError _ output => Return (None, Some ("lp failed: " +:+ output))
             | OtherException message => Return (None, Some message)
             end)
    end.

(** ** The simulated backend *)

Definition _async_mock_complete (job_id : nat) (d : DB) : DB :=
  update_job job_id (PrintJob.set_status completed) d.

(** ** The handlers *)

(** The second session of [submit_print], after [_run_ipp_print]. *)
Definition record_outcome (ipp_id err : option string) (job : PrintJob.t) : PrintJob.t :=
  if Py.truthy_opt err then
    PrintJob.set_error err (PrintJob.set_status failed job)
  else
    PrintJob.set_ipp_job_id (Some (Py.or_else ipp_id "")) (PrintJob.set_status printing job).

(** [os.path.join(UPLOAD_DIR, f"{int(time.time())}_{filename}")] *)
Definition upload_path (cfg : Config) (now : Z) (filename : string) : string :=
  Py.path_join (UPLOAD_DIR cfg) (Py.str_of_int now +:+ "_" +:+ filename).

(** [PrintJob(user_id=..., filename=..., status="queued")] *)
Definition new_job (user_id : nat) (filename : string) : PrintJob.t :=
  PrintJob.mk user_id filename queued None None.

Definition submit_print (cfg : Config) (secure_filename : string -> string)
    (req : PrintRequest) (env : Env) (st : State) : result (State * Response) :=
  match auth_required (auth req) with
  | inl resp => Return (st, resp)
  | inr user_id =>
      match file req with
      | None => Return (st, Error 400 "file is required")
      | Some f_filename =>
          if String.eqb f_filename "" then Return (st, Error 400 "empty filename")
          else
            let filename := secure_filename f_filename in
            let path := upload_path cfg (now env) filename in
            let '(d, job_id) := add_job (new_job user_id filename) (db st) in
            if ENABLE_IPP cfg then
              let* (ipp_id, err) := _run_ipp_print cfg (check_output env) path in
              Return ({| db := update_job job_id (record_outcome ipp_id err) d;
                         threads := threads st;
                         handlers := handlers st |},
                      JobId job_id)
            else
              Return ({| db := d; threads := threads st ++ [job_id];
                         handlers := handlers st |},
                      JobId job_id)
      end
  end.

(** ** What the store refuses *)

(** [submit_print] above takes the store to accept every value. The
    default [DATABASE_URL] is PostgreSQL behind psycopg2, and there the
    second commit of the handler can raise: the columns it writes are
    [error], a [Text], and [ipp_job_id], a [String(128)], and both hold
    text that [lp] printed. *)
Definition NUL : ascii := Ascii.zero.

(** A value for a [Text] column, as it is stored: a string that holds
    NUL is refused. *)
Definition pg_text (s : string) : option string :=
  if Py.contains NUL s then None else Some s.

(** A value for a [String(n)] column, as it is stored: NUL is refused,
    and so is a string of more than [n] characters, unless the excess is
    all spaces, which are cut off. *)
Definition pg_varchar (n : nat) (s : string) : option string :=
  if Py.contains NUL s then None
  else if (String.length s <=? n)%nat then Some s
  else if Py.all_chars (Ascii.eqb " ") (substring n (String.length s - n) s)
       then Some (substring 0 n s)
       else None.

(** A column that may be NULL. *)
Definition pg_column (store : string -> option string) (v : option string)
  : option (option string) :=
  match v with
  | None => Some None
  | Some s => option_map Some (store s)
  end.

(** The row that the second session of [submit_print] writes, as it is
    stored; [None] when the commit raises. *)
Definition pg_outcome (job : PrintJob.t) : option PrintJob.t :=
  match pg_column pg_text (PrintJob.error job),
        pg_column (pg_varchar 128) (PrintJob.ipp_job_id job) with
  | Some error, Some ipp_job_id =>
      Some (PrintJob.set_ipp_job_id ipp_job_id (PrintJob.set_error error job))
  | _, _ => None
  end.

(** The exception of the driver when the commit raises. Nothing in the
    program reads it: Flask answers 500. *)
Definition commit_refused : exn := OtherException "the database refuses the value".

(** [job = s.get(PrintJob, job_id); if job: <update>; s.commit()] with
    the commit as the database performs it: when it raises, the update
    is rolled back. *)
Definition commit_job (job_id : nat) (f : PrintJob.t -> PrintJob.t) (d : DB) : result DB :=
  match print_jobs d !! job_id with
  | Some job =>
      match pg_outcome (f job) with
      | Some stored =>
          Return {| print_jobs := <[job_id := stored]> (print_jobs d);
                    next_id := next_id d |}
      | None => Raise commit_refused
      end
  | None => Return d
  end.

(** [submit_print] with the second commit as the database performs it.
    The result is the state the request leaves and its answer; an
    exception that the handler lets through ends the request with 500. *)
Definition submit_print_db (cfg : Config) (secure_filename : string -> string)
    (req : PrintRequest) (env : Env) (st : State) : State * result Response :=
  match auth_required (auth req) with
  | inl resp => (st, Return resp)
  | inr user_id =>
      match file req with
      | None => (st, Return (Error 400 "file is required"))
      | Some f_filename =>
          if String.eqb f_filename "" then (st, Return (Error 400 "empty filename"))
          else
            let filename := secure_filename f_filename in
            let path := upload_path cfg (now env) filename in
            let '(d, job_id) := add_job (new_job user_id filename) (db st) in
            if ENABLE_IPP cfg then
              match _run_ipp_print cfg (check_output env) path with
              | Raise e =>
                  ({| db := d; threads := threads st; handlers := handlers st |}, Raise e)
              | Return (ipp_id, err) =>
                  match commit_job job_id (record_outcome ipp_id err) d with
                  | Return d' =>
                      ({| db := d'; threads := threads st; handlers := handlers st |},
                       Return (JobId job_id))
                  | Raise e =>
                      ({| db := d; threads := threads st; handlers := handlers st |},
                       Raise e)
                  end
              end
            else
              ({| db := d; threads := threads st ++ [job_id];
                  handlers := handlers st |},
               Return (JobId job_id))
      end
  end.

(** [s.query(PrintJob).filter_by(id=job_id, user_id=user_id).first()] *)
Definition query_job (job_id user_id : nat) (d : DB) : option PrintJob.t :=
  match print_jobs d !! job_id with
  | Some job => if Nat.eqb (PrintJob.user_id job) user_id then Some job else None
  | None => None
  end.

Definition job_status (a : Auth) (job_id : nat) (d : DB) : Response :=
  match auth_required a with
  | inl resp => resp
  | inr user_id =>
      match query_job job_id user_id d with
      | None => Error 404 "not found"
      | Some job =>
          JobView job_id (PrintJob.filename job) (status_str (PrintJob.status job))
            (PrintJob.error job) (PrintJob.ipp_job_id job)
      end
  end.

(** ** Runs of the service *)

(** A submission that passes [auth_required] and the two checks on the
    uploaded file. *)
Definition valid_submission (req : PrintRequest) (user_id : nat) (f_filename : string) : Prop :=
  (exists username, auth req = Bearer user_id username)
  /\ file req = Some f_filename
  /\ f_filename <> "".

(** One step of the service under a fixed configuration.
    - [step_submit]: a request to [/api/print] that runs from start to
      end with nothing in between.
    - [step_accept], [step_dispatch]: under the protocol backend the
      handler commits twice, before and after the call of [lp], and other
      steps may come in between; the first is the handler up to its first
      commit, the second is the call of [_run_ipp_print] and the second
      commit.
    - [step_dispatch_refused]: the same call of [_run_ipp_print] when
      the database refuses the outcome: the second commit raises, the row
      stays as the first commit left it and the request ends with 500.
      [step_submit] and [step_dispatch] record an outcome whatever it
      holds, so the relation has every run of the service.
    - [step_status]: a request to [/api/jobs/<id>].
    - [step_complete]: a completion thread fires. A thread started for a
      job may fire any number of times: the relation covers a signal that
      is delivered more than once. *)
Inductive Event : Type :=
| EvSubmit (req : PrintRequest) (env : Env) (resp : Response)
| EvAccept (req : PrintRequest) (now : Z)
| EvDispatch (job_id : nat) (check_output : list string -> result string) (resp : Response)
| EvStatus (a : Auth) (job_id : nat) (resp : Response)
| EvComplete (job_id : nat).

Inductive step (cfg : Config) (secure_filename : string -> string)
  : State -> Event -> State -> Prop :=
| step_submit st req env st' resp :
    submit_print cfg secure_filename req env st = Return (st', resp) ->
    step cfg secure_filename st (EvSubmit req env resp) st'
| step_accept st req now user_id f_filename :
    ENABLE_IPP cfg = true ->
    valid_submission req user_id f_filename ->
    step cfg secure_filename st (EvAccept req now)
      {| db := (add_job (new_job user_id (secure_filename f_filename)) (db st)).1;
         threads := threads st;
         handlers := <[next_id (db st) :=
                         upload_path cfg now (secure_filename f_filename)]> (handlers st) |}
| step_dispatch st job_id path check_output ipp_id err :
    handlers st !! job_id = Some path ->
    _run_ipp_print cfg check_output path = Return (ipp_id, err) ->
    step cfg secure_filename st (EvDispatch job_id check_output (JobId job_id))
      {| db := update_job job_id (record_outcome ipp_id err) (db st);
         threads := threads st;
         handlers := delete job_id (handlers st) |}
| step_status st a job_id :
    step cfg secure_filename st (EvStatus a job_id (job_status a job_id (db st))) st
| step_complete st job_id :
    job_id ∈ threads st ->
    step cfg secure_filename st (EvComplete job_id)
      {| db := _async_mock_complete job_id (db st);
         threads := threads st;
         handlers := handlers st |}
| step_dispatch_refused st job_id path check_output ipp_id err e :
    handlers st !! job_id = Some path ->
    _run_ipp_print cfg check_output path = Return (ipp_id, err) ->
    commit_job job_id (record_outcome ipp_id err) (db st) = Raise e ->
    step cfg secure_filename st
      (EvDispatch job_id check_output (Error 500 "Internal Server Error"))
      {| db := db st;
         threads := threads st;
         handlers := delete job_id (handlers st) |}.

Definition next (cfg : Config) (secure_filename : string -> string) : relation State :=
  fun st st' => exists ev, step cfg secure_filename st ev st'.

Definition reachable (cfg : Config) (secure_filename : string -> string) (st : State) : Prop :=
  rtc (next cfg secure_filename) init st.

(** ** Start-up *)

(** What one call of [Base.metadata.create_all(engine)] does: it returns,
    it raises [OperationalError], or it raises something else. *)
Inductive create_all_outcome : Type :=
| Created
| OperationalError
| OtherFailure (message : string).

(** How [init_db] ends: it returns, it raises its [RuntimeError], or an
    exception of [create_all] passes through. *)
Inductive init_db_outcome : Type :=
| Initialised
| RuntimeError (message : string)
| Propagated (message : string).

(** The loop [for _ in range(30)] of [init_db] with [remaining] rounds to
    go: [attempt] calls of [create_all] were made and [slept] seconds
    were spent in [time.sleep]. The result is how [init_db] ends and the
    seconds slept. *)
Fixpoint init_db_from (create_all : nat -> create_all_outcome)
    (attempt remaining slept : nat) : init_db_outcome * nat :=
  match remaining with
  | 0 => (RuntimeError "DB init failed", slept)
  | S remaining' =>
      match create_all attempt with
      | Created => (Initialised, slept)
      | OperationalError => init_db_from create_all (S attempt) remaining' (slept + 2)
      | OtherFailure message => (Propagated message, slept)
      end
  end.

Definition init_db (create_all : nat -> create_all_outcome) : init_db_outcome * nat :=
  init_db_from create_all 0 30 0.

(** ** The bearer header *)

(** The wrapper of [auth_required] up to the token it hands to
    [jwt.decode]: [authorization] is the header, [""] when the request
    has none. The index [[1]] is outside the [try]. *)
Definition bearer_token (authorization : string) : result (Response + string) :=
  if negb (Py.startswith "Bearer " authorization) then
    Return (inl (Error 401 "Unauthorized"))
  else
    match Py.item (Py.split_once " " authorization) 1 with
    | Some token => Return (inr token)
    | None => Raise (OtherException "list index out of range")
    end.

(** ** Vocabulary of the statements *)

(** What [os.path.join] puts between a directory and a relative name. *)
Definition dir_sep (a : string) : string :=
  match a with
  | EmptyString => ""
  | _ => if String.eqb (substring (String.length a - 1) 1 a) "/" then "" else "/"
  end.

(** The rows of [print_jobs] that belong to [user_id]. *)
Definition jobs_of (user_id : nat) (d : DB) : gmap nat PrintJob.t :=
  filter (fun row => PrintJob.user_id row.2 = user_id) (print_jobs d).

Definition no_space (t : string) : Prop :=
  Py.all_chars (fun c => negb (Py.isspace_char c)) t = true.

Definition clean_token (t : string) : Prop := no_space t /\ Py.truthy t = true.

(** [error] holds a non-empty string. *)
Definition has_error (job : PrintJob.t) : Prop := Py.truthy_opt (PrintJob.error job) = true.

(** The spec's reading of the scan: the last part that passes the test. *)
Definition last_job_token (parts : list string) : option string :=
  List.find is_job_token (rev parts).

(** Every key in use is below the next value of the sequence. *)
Definition keys_below (d : DB) : Prop :=
  forall j job, print_jobs d !! j = Some job -> j < next_id d.

(** What the configuration flag means for a state: with the protocol
    backend no completion thread exists; with the simulated backend no
    handler waits for [lp], and every job is [queued] or [completed] and
    has no [error]. *)
Definition mode_inv (cfg : Config) (st : State) : Prop :=
  if ENABLE_IPP cfg then threads st = []
  else handlers st = ∅
       /\ forall j job, print_jobs (db st) !! j = Some job ->
             (PrintJob.status job = queued \/ PrintJob.status job = completed)
             /\ PrintJob.error job = None.

(** The job of a handler that waits for [lp] is as it was created. *)
Definition handler_inv (st : State) : Prop :=
  forall j path, handlers st !! j = Some path ->
    exists job, print_jobs (db st) !! j = Some job
                /\ PrintJob.status job = queued
                /\ PrintJob.error job = None.

Definition error_iff_failed (st : State) : Prop :=
  forall j job, print_jobs (db st) !! j = Some job ->
    has_error job <-> PrintJob.status job = failed.

(** What holds in every state of a run. *)
Definition invariant (cfg : Config) (st : State) : Prop :=
  keys_below (db st) /\ mode_inv cfg st /\ handler_inv st /\ error_iff_failed st.

(** The four shapes of a row: see [reachable_rows_have_a_shape]. *)
Definition row_shape (cfg : Config) (job : PrintJob.t) : Prop :=
  (PrintJob.status job = queued
   /\ PrintJob.error job = None /\ PrintJob.ipp_job_id job = None)
  \/ (PrintJob.status job = printing /\ ENABLE_IPP cfg = true
      /\ PrintJob.error job = None /\ exists id, PrintJob.ipp_job_id job = Some id)
  \/ (PrintJob.status job = failed /\ ENABLE_IPP cfg = true
      /\ has_error job /\ PrintJob.ipp_job_id job = None)
  \/ (PrintJob.status job = completed /\ ENABLE_IPP cfg = false
      /\ PrintJob.error job = None /\ PrintJob.ipp_job_id job = None).

(** The state [st] with the row [job] added under the next key. *)
Definition with_job (cfg : Config) (job : PrintJob.t) (st : State) : State :=
  {| db := {| print_jobs := <[next_id (db st) := job]> (print_jobs (db st));
              next_id := S (next_id (db st)) |};
     threads := if ENABLE_IPP cfg then threads st else threads st ++ [next_id (db st)];
     handlers := handlers st |}.

(** The state a handler leaves, the state it started from when it raised. *)
Definition state_after (r : result (State * Response)) (st : State) : State :=
  match r with
  | Return (st', _) => st'
  | Raise _ => st
  end.

(** ** Sample values for concrete runs *)

(** [werkzeug.utils.secure_filename] on ASCII input under POSIX: path
    separators become spaces, the words are joined with underscores,
    every character outside [A-Za-z0-9_.-] is dropped, and leading and
    trailing dots and underscores are stripped. A character above 127 is
    dropped here; werkzeug first replaces it by its ASCII decomposition,
    if it has one. *)
Definition is_safe_char (c : ascii) : bool :=
  let n := nat_of_ascii c in
  (((65 <=? n) && (n <=? 90)) || ((97 <=? n) && (n <=? 122))
   || ((48 <=? n) && (n <=? 57)) || (n =? 95) || (n =? 46) || (n =? 45))%nat.

Definition is_ascii_char (c : ascii) : bool := (nat_of_ascii c <? 128)%nat.

Definition secure_filename_ascii (filename : string) : string :=
  let filename := Py.filter_chars is_ascii_char filename in
  let filename := Py.replace_char "/" " " filename in
  Py.strip_chars "._" (Py.filter_chars is_safe_char (Py.join "_" (Py.split filename))).

Definition mock_config : Config :=
  {| ENABLE_IPP := false; PRINTER_URI := ""; PRINTER_NAME := ""; UPLOAD_DIR := "/data/uploads" |}.

Definition ipp_config : Config :=
  {| ENABLE_IPP := true; PRINTER_URI := ""; PRINTER_NAME := "office"; UPLOAD_DIR := "/data/uploads" |}.

Definition unconfigured_ipp_config : Config :=
  {| ENABLE_IPP := true; PRINTER_URI := ""; PRINTER_NAME := ""; UPLOAD_DIR := "/data/uploads" |}.

Definition alice : Auth := Bearer 1 "alice".
Definition bob : Auth := Bearer 2 "bob".

Definition upload (a : Auth) (name : string) : PrintRequest :=
  {| auth := a; file := Some name |}.

(** An output of [lp] with two parts that pass the identifier test. *)
Definition two_ids_output : string := "request id is office-42 (1 file(s)) queue-7".

(** [lp] exits with status 0 and prints [out]. *)
Definition lp_prints (out : string) : Env :=
  {| now := 1700000000; check_output := fun _ => Return out |}.

(** [lp] exits with a non-zero status after printing [out]. *)
Definition lp_exits (code : Z) (out : string) : Env :=
  {| now := 1700000000; check_output := fun _ => Raise (CalledProcessError code out) |}.

(** [check_output] raises an exception [e] other than
    [CalledProcessError], with [str(e) = message]. *)
Definition lp_raises (message : string) : Env :=
  {| now := 1700000000; check_output := fun _ => Raise (OtherException message) |}.

(** The job with key [job_id], when the run returned. *)
Definition job_after (r : result (State * Response)) (job_id : nat) : option PrintJob.t :=
  match r with
  | Return (st, _) => print_jobs (db st) !! job_id
  | Raise _ => None
  end.

Definition response_of (r : result (State * Response)) : option Response :=
  match r with
  | Return (_, resp) => Some resp
  | Raise _ => None
  end.

(** [str(e)] of the [subprocess.TimeoutExpired] that [check_output]
    raises under [ipp_config]. *)
Definition timeout_message : string :=
  "Command '['lp', '-d', 'office', '/data/uploads/1700000000_a.pdf']' timed out "
  +:+ "after 60 seconds".

(** A database that refuses the first [k] connections, and one that
    refuses them all. *)
Definition db_up_after (k : nat) : nat -> create_all_outcome :=
  fun attempt => if (attempt <? k)%nat then OperationalError else Created.

Definition db_down : nat -> create_all_outcome := fun _ => OperationalError.

(** What [lp] printed before a non-zero exit, with a NUL character in
    it, and an identifier of 133 characters. *)
Definition nul_output : string := "lp: unable to print " +:+ String NUL " (bad file name)".

Definition long_id : string :=
  "laser-printer-on-the-second-floor-of-the-east-wing-next-to-the-kitchen-"
  +:+ "reserved-for-the-accounting-department-only-0000000001-1234567".

(** A job submitted to the simulated backend, before and after its
    completion thread fires, and a job that the unconfigured protocol
    backend failed. *)
Definition queued_state : State :=
  state_after (submit_print mock_config secure_filename_ascii (upload alice "a.pdf")
                 (lp_prints "") init) init.

Definition completed_state : State :=
  {| db := _async_mock_complete 1 (db queued_state);
     threads := threads queued_state;
     handlers := handlers queued_state |}.

Definition failed_state : State :=
  state_after (submit_print unconfigured_ipp_config secure_filename_ascii
                 (upload alice "a.pdf") (lp_prints "") init) init.

(** An upload with no [Authorization] header. *)
Definition anonymous_upload : PrintRequest := {| auth := NoBearer; file := Some "a.pdf" |}.

(** [queued_state] after a submission by a second user. *)
Definition two_users_state : State :=
  state_after (submit_print mock_config secure_filename_ascii (upload bob "b.pdf")
                 (lp_prints "") queued_state) queued_state.

(** * Properties *)

Example split_lp_output :
  Py.split ("request id is office-42 (1 file(s))" +:+ String (ascii_of_nat 10) "")
  = ["request"; "id"; "is"; "office-42"; "(1"; "file(s))"].
Proof. reflexivity. Qed.

Example split_sep_last : Py.last_item (Py.split_sep "-" "hp-laser-17") = Some "17".
Proof. reflexivity. Qed.

Example strip_both : Py.strip "  a b  " = "a b".
Proof. reflexivity. Qed.

Example join_trailing_slash : Py.path_join "/data/" "1_a.pdf" = "/data/1_a.pdf".
Proof. reflexivity. Qed.

Example job_token_tests :
  map is_job_token ["office-42"; "office-"; "-7"; "42"; "a-b-3"; "a-3-b"; "file(s))"]
  = [true; false; true; false; true; false; false].
Proof. reflexivity. Qed.

Example join_upload : Py.path_join "/data/uploads" (Py.str_of_int 1700000000 +:+ "_" +:+ "a.pdf")
  = "/data/uploads/1700000000_a.pdf".
Proof. reflexivity. Qed.

Example secure_filename_plain : secure_filename_ascii "My Report (final).pdf" = "My_Report_final.pdf".
Proof. reflexivity. Qed.

Example secure_filename_traversal : secure_filename_ascii "../../etc/passwd" = "etc_passwd".
Proof. reflexivity. Qed.

Example secure_filename_dots : secure_filename_ascii ".." = "".
Proof. reflexivity. Qed.

Example submit_mock :
  response_of (submit_print mock_config secure_filename_ascii (upload alice "a.pdf") (lp_prints "") init)
  = Some (JobId 1).
Proof. vm_compute. reflexivity. Qed.

Example submit_ipp_job :
  job_after (submit_print ipp_config secure_filename_ascii (upload alice "a.pdf")
               (lp_prints "request id is office-42 (1 file(s))") init) 1
  = Some (PrintJob.mk 1 "a.pdf" printing None (Some "office-42")).
Proof. vm_compute. reflexivity. Qed.

(** ** Tokens of [str.split] *)

Section Tokens.

Lemma push_token_clean tok rest :
  no_space tok -> Forall clean_token rest -> Forall clean_token (Py.push_token tok rest).
Proof.
  intros Htok Hrest. unfold Py.push_token.
  destruct (Py.truthy tok) eqn:E; [constructor; [split |] |]; assumption.
Qed.

Lemma split_scan_clean s :
  no_space (fst (Py.split_scan s)) /\ Forall clean_token (snd (Py.split_scan s)).
Proof.
  induction s as [| c s [IHtok IHrest]]; simpl.
  - split; [reflexivity | constructor].
  - destruct (Py.split_scan s) as [tok rest]; simpl in *.
    destruct (Py.isspace_char c) eqn:E; simpl.
    + split; [reflexivity | by apply push_token_clean].
    + split; [| assumption]. unfold no_space; simpl. by rewrite E.
Qed.

Lemma split_clean s : Forall clean_token (Py.split s).
Proof.
  unfold Py.split. pose proof (split_scan_clean s) as [Htok Hrest].
  destruct (Py.split_scan s) as [tok rest]. by apply push_token_clean.
Qed.

Lemma lstrip_no_space t : no_space t -> Py.lstrip t = t.
Proof.
  destruct t as [| c t]; [reflexivity |]. unfold no_space; simpl.
  destruct (Py.isspace_char c); [discriminate | reflexivity].
Qed.

Lemma rstrip_no_space t : no_space t -> Py.rstrip t = t.
Proof.
  induction t as [| c t IH]; [reflexivity |]. unfold no_space; simpl.
  intros H. apply andb_prop in H as [Hc Ht]. rewrite (IH Ht).
  destruct t; [| reflexivity].
  destruct (Py.isspace_char c); [discriminate | reflexivity].
Qed.

Lemma strip_no_space t : no_space t -> Py.strip t = t.
Proof.
  intros H. unfold Py.strip. rewrite (lstrip_no_space t H). by apply rstrip_no_space.
Qed.

Lemma strip_token out t : t ∈ Py.split out -> Py.strip t = t.
Proof.
  intros Hin. pose proof (split_clean out) as Hall.
  rewrite Forall_forall in Hall. destruct (Hall t Hin) as [Hsp _].
  by apply strip_no_space.
Qed.

Lemma split_sep_nonempty sep s : Py.split_sep sep s <> [].
Proof.
  destruct s as [| c s]; simpl; [discriminate |].
  destruct (Ascii.eqb c sep); [discriminate |].
  destruct (Py.split_sep sep s); discriminate.
Qed.

(** [part.split("-")[-1]] never raises. *)
Lemma last_item_split_sep sep s : is_Some (Py.last_item (Py.split_sep sep s)).
Proof.
  unfold Py.last_item. pose proof (split_sep_nonempty sep s) as Hne.
  induction (Py.split_sep sep s) as [| x l IH]; [done |].
  destruct l as [| y l]; [by eexists |].
  change (is_Some (List.last (map Some (y :: l)) None)). by apply IH.
Qed.

(** The loop stops at the first part that passes the test. *)
Lemma scan_parts_first before t after :
  Forall (fun p => is_job_token p = false) before ->
  is_job_token t = true ->
  scan_parts (before ++ t :: after) = Some (Py.strip t).
Proof.
  intros Hbefore Ht. induction Hbefore as [| p before Hp _ IH]; simpl.
  - by rewrite Ht.
  - by rewrite Hp.
Qed.

Lemma scan_parts_none parts :
  Forall (fun p => is_job_token p = false) parts <-> scan_parts parts = None.
Proof.
  induction parts as [| p parts IH]; simpl.
  - split; [reflexivity | constructor].
  - destruct (is_job_token p) eqn:E.
    + split; [| discriminate]. intros H. inversion H; congruence.
    + rewrite <- IH. split; [by inversion 1 | by constructor].
Qed.

End Tokens.

(** ** The protocol backend *)

Section Backend.

Variable cfg : Config.
Variable check_output : list string -> result string.
Variable local_path : string.

(** Every exception of [check_output] is handled inside the function. *)
Lemma run_ipp_print_returns :
  exists ipp_id err, _run_ipp_print cfg check_output local_path = Return (ipp_id, err).
Proof.
  unfold _run_ipp_print.
  destruct (ENABLE_IPP cfg); simpl; [| by eauto].
  destruct (lp_command cfg local_path) as [cmd |]; [| by eauto].
  destruct (check_output cmd) as [out | [code output | message]]; simpl; by eauto.
Qed.

Lemma run_ipp_print_unconfigured :
  ENABLE_IPP cfg = true ->
  PRINTER_NAME cfg = "" ->
  PRINTER_URI cfg = "" ->
  _run_ipp_print cfg check_output local_path
  = Return (None, Some "No PRINTER_URI or PRINTER_NAME configured").
Proof.
  intros Hon Hname Huri. unfold _run_ipp_print, lp_command.
  by rewrite Hon, Hname, Huri.
Qed.

Lemma run_ipp_print_exit0 cmd out :
  ENABLE_IPP cfg = true ->
  lp_command cfg local_path = Some cmd ->
  check_output cmd = Return out ->
  _run_ipp_print cfg check_output local_path = Return (scan_parts (Py.split out), None).
Proof.
  intros Hon Hcmd Hout. unfold _run_ipp_print. by rewrite Hon, Hcmd, Hout.
Qed.

Lemma run_ipp_print_nonzero cmd code output :
  ENABLE_IPP cfg = true ->
  lp_command cfg local_path = Some cmd ->
  check_output cmd = Raise (CalledProcessError code output) ->
  _run_ipp_print cfg check_output local_path
  = Return (None, Some ("lp failed: " +:+ output)).
Proof.
  intros Hon Hcmd Hout. unfold _run_ipp_print. by rewrite Hon, Hcmd, Hout.
Qed.

Lemma run_ipp_print_fault cmd message :
  ENABLE_IPP cfg = true ->
  lp_command cfg local_path = Some cmd ->
  check_output cmd = Raise (OtherException message) ->
  _run_ipp_print cfg check_output local_path = Return (None, Some message).
Proof.
  intros Hon Hcmd Hout. unfold _run_ipp_print. by rewrite Hon, Hcmd, Hout.
Qed.

(** C2, as amended: when [lp] exits with status 0, the identifier that
    [_run_ipp_print] returns is the FIRST part of [out.split()] that
    contains a ["-"] and ends, after its last ["-"], in a run of
    digits: no part before it passes the test. *)
Theorem first_job_token_taken cmd out before t after :
  ENABLE_IPP cfg = true ->
  lp_command cfg local_path = Some cmd ->
  check_output cmd = Return out ->
  Py.split out = (before ++ t :: after)%list ->
  Forall (fun p => is_job_token p = false) before ->
  is_job_token t = true ->
  _run_ipp_print cfg check_output local_path = Return (Some t, None).
Proof.
  intros Hon Hcmd Hout Hsplit Hbefore Ht.
  rewrite (run_ipp_print_exit0 cmd out Hon Hcmd Hout), Hsplit.
  rewrite (scan_parts_first before t after Hbefore Ht).
  rewrite (strip_token out t); [reflexivity |].
  rewrite Hsplit. apply elem_of_app. right. by left.
Qed.

End Backend.

Lemma first_job_token_taken_witness :
  _run_ipp_print ipp_config (check_output (lp_prints two_ids_output))
    "/data/uploads/1700000000_a.pdf"
  = Return (Some "office-42", None).
Proof.
  apply (first_job_token_taken ipp_config (check_output (lp_prints two_ids_output))
           "/data/uploads/1700000000_a.pdf"
           ["lp"; "-d"; "office"; "/data/uploads/1700000000_a.pdf"] two_ids_output
           ["request"; "id"; "is"] "office-42" ["(1"; "file(s))"; "queue-7"]).
  - reflexivity.
  - reflexivity.
  - reflexivity.
  - reflexivity.
  - repeat constructor.
  - reflexivity.
Defined.

(** C2, as stated, fails: on an output with two parts that pass the test,
    the last of them is not the identifier returned. *)
Lemma last_job_token_not_taken :
  last_job_token (Py.split two_ids_output) = Some "queue-7"
  /\ _run_ipp_print ipp_config (check_output (lp_prints two_ids_output))
       "/data/uploads/1700000000_a.pdf"
     = Return (Some "office-42", None)
  /\ _run_ipp_print ipp_config (check_output (lp_prints two_ids_output))
       "/data/uploads/1700000000_a.pdf"
     <> Return (last_job_token (Py.split two_ids_output), None).
Proof.
  split; [reflexivity |]. split; [reflexivity |]. vm_compute. discriminate.
Qed.

(** ** The store *)

Lemma lookup_add_job job d j :
  print_jobs (add_job job d).1 !! j
  = if decide (next_id d = j) then Some job else print_jobs d !! j.
Proof. simpl. apply lookup_insert. Qed.

Lemma update_added_job f job d :
  update_job (next_id d) f (add_job job d).1
  = {| print_jobs := <[next_id d := f job]> (print_jobs d); next_id := S (next_id d) |}.
Proof.
  unfold update_job, add_job; simpl.
  rewrite lookup_insert_eq. f_equal. apply insert_insert_eq.
Qed.

Lemma lookup_update_job j f d j' :
  print_jobs (update_job j f d) !! j'
  = if decide (j = j') then f <$> print_jobs d !! j else print_jobs d !! j'.
Proof.
  unfold update_job. destruct (print_jobs d !! j) as [job |] eqn:E; simpl.
  - rewrite lookup_insert. by destruct (decide (j = j')).
  - destruct (decide (j = j')) as [<- |]; [by rewrite E | reflexivity].
Qed.

Lemma next_id_update_job j f d : next_id (update_job j f d) = next_id d.
Proof. unfold update_job. by destruct (print_jobs d !! j). Qed.

(** ** [submit_print], case by case *)

Section Submit.

Variable cfg : Config.
Variable secure_filename : string -> string.

Lemma submit_print_mock req env st user_id f_filename :
  valid_submission req user_id f_filename ->
  ENABLE_IPP cfg = false ->
  submit_print cfg secure_filename req env st
  = Return ({| db := (add_job (new_job user_id (secure_filename f_filename)) (db st)).1;
               threads := threads st ++ [next_id (db st)];
               handlers := handlers st |},
            JobId (next_id (db st))).
Proof.
  intros ([username Hauth] & Hfile & Hname) Hoff.
  unfold submit_print. rewrite Hauth, Hfile; simpl.
  apply String.eqb_neq in Hname. by rewrite Hname, Hoff.
Qed.

Lemma submit_print_ipp req env st user_id f_filename ipp_id err :
  valid_submission req user_id f_filename ->
  ENABLE_IPP cfg = true ->
  _run_ipp_print cfg (check_output env)
    (upload_path cfg (now env) (secure_filename f_filename)) = Return (ipp_id, err) ->
  submit_print cfg secure_filename req env st
  = Return ({| db := {| print_jobs :=
                          <[next_id (db st) :=
                              record_outcome ipp_id err
                                (new_job user_id (secure_filename f_filename))]>
                            (print_jobs (db st));
                        next_id := S (next_id (db st)) |};
               threads := threads st;
               handlers := handlers st |},
            JobId (next_id (db st))).
Proof.
  intros ([username Hauth] & Hfile & Hname) Hon Hrun.
  unfold submit_print. rewrite Hauth, Hfile; simpl.
  apply String.eqb_neq in Hname. rewrite Hname, Hon, Hrun; simpl.
  by rewrite <- update_added_job.
Qed.

(** A request that is turned away leaves the state as it was. *)
Lemma submit_print_cases req env st st' resp :
  submit_print cfg secure_filename req env st = Return (st', resp) ->
  (st' = st /\ exists code msg, resp = Error code msg)
  \/ (exists user_id f_filename, valid_submission req user_id f_filename).
Proof.
  unfold submit_print, valid_submission.
  destruct (auth req) as [| | user_id username] eqn:Hauth; simpl.
  - intros [= <- <-]. left. by eauto.
  - intros [= <- <-]. left. by eauto.
  - destruct (file req) as [f_filename |] eqn:Hfile.
    + destruct (String.eqb f_filename "") eqn:Hname.
      * intros [= <- <-]. left. by eauto.
      * intros _. right. exists user_id, f_filename.
        apply String.eqb_neq in Hname. by eauto.
    + intros [= <- <-]. left. by eauto.
Qed.

End Submit.

(** ** Dispatch through the protocol backend *)

Section Dispatch.

Variable cfg : Config.
Variable secure_filename : string -> string.
Variables (req : PrintRequest) (env : Env) (st : State).
Variables (user_id : nat) (f_filename : string).
Hypothesis Hvalid : valid_submission req user_id f_filename.

Let filename := secure_filename f_filename.
Let job_id := next_id (db st).
Let path := upload_path cfg (now env) filename.

(** C7: with the protocol backend enabled and neither [PRINTER_NAME]
    nor [PRINTER_URI] set, a valid submission still returns the job id,
    and the job is [failed] with the configuration message as its
    [error], whatever [lp] would have done. *)
Theorem unconfigured_backend_fails_job :
  ENABLE_IPP cfg = true ->
  PRINTER_NAME cfg = "" ->
  PRINTER_URI cfg = "" ->
  exists st',
    submit_print cfg secure_filename req env st = Return (st', JobId job_id)
    /\ print_jobs (db st') !! job_id
       = Some (PrintJob.mk user_id filename failed
                 (Some "No PRINTER_URI or PRINTER_NAME configured") None).
Proof.
  intros Hon Hname Huri. eexists. split.
  - apply (submit_print_ipp cfg secure_filename req env st user_id f_filename
             None (Some "No PRINTER_URI or PRINTER_NAME configured") Hvalid Hon).
    by apply run_ipp_print_unconfigured.
  - simpl. by rewrite lookup_insert_eq.
Qed.

(** C8: when [lp] exits with status 0 and no part of its output passes
    the identifier test, the job becomes [printing], its [ipp_job_id]
    is the empty string and its [error] stays unset. *)
Theorem no_token_still_printing cmd out :
  ENABLE_IPP cfg = true ->
  lp_command cfg path = Some cmd ->
  check_output env cmd = Return out ->
  Forall (fun p => is_job_token p = false) (Py.split out) ->
  exists st',
    submit_print cfg secure_filename req env st = Return (st', JobId job_id)
    /\ print_jobs (db st') !! job_id
       = Some (PrintJob.mk user_id filename printing None (Some "")).
Proof.
  intros Hon Hcmd Hout Hnone. eexists. split.
  - apply (submit_print_ipp cfg secure_filename req env st user_id f_filename
             None None Hvalid Hon).
    apply scan_parts_none in Hnone.
    pose proof (run_ipp_print_exit0 cfg (check_output env) path cmd out Hon Hcmd Hout)
      as Hrun.
    rewrite Hnone in Hrun. exact Hrun.
  - simpl. by rewrite lookup_insert_eq.
Qed.

(** X8: Any other exception fails the job as long as its message is not
    empty. *)
Lemma fault_with_message_fails_job cmd message :
  ENABLE_IPP cfg = true ->
  lp_command cfg path = Some cmd ->
  check_output env cmd = Raise (OtherException message) ->
  message <> "" ->
  exists st',
    submit_print cfg secure_filename req env st = Return (st', JobId job_id)
    /\ print_jobs (db st') !! job_id
       = Some (PrintJob.mk user_id filename failed (Some message) None).
Proof.
  intros Hon Hcmd Hout Hmsg. eexists. split.
  - apply (submit_print_ipp cfg secure_filename req env st user_id f_filename
             None (Some message) Hvalid Hon).
    by apply (run_ipp_print_fault cfg (check_output env) path cmd message).
  - simpl. rewrite lookup_insert_eq. unfold record_outcome; simpl.
    destruct message; [done | reflexivity].
Qed.


End Dispatch.

Lemma upload_valid user_id username name :
  name <> "" -> valid_submission (upload (Bearer user_id username) name) user_id name.
Proof. intros Hname. split; [by exists username | by split]. Qed.

Lemma unconfigured_backend_fails_job_witness :
  exists st',
    submit_print unconfigured_ipp_config secure_filename_ascii (upload alice "a.pdf")
      (lp_prints "request id is office-42 (1 file(s))") init = Return (st', JobId 1)
    /\ print_jobs (db st') !! 1
       = Some (PrintJob.mk 1 "a.pdf" failed
                 (Some "No PRINTER_URI or PRINTER_NAME configured") None).
Proof.
  apply (unconfigured_backend_fails_job unconfigured_ipp_config secure_filename_ascii
           (upload alice "a.pdf") (lp_prints "request id is office-42 (1 file(s))") init
           1 "a.pdf").
  - split; [by exists "alice" | split; [reflexivity | discriminate]].
  - reflexivity.
  - reflexivity.
  - reflexivity.
Defined.

Lemma no_token_still_printing_witness :
  exists st',
    submit_print ipp_config secure_filename_ascii (upload alice "a.pdf")
      (lp_prints "job accepted") init = Return (st', JobId 1)
    /\ print_jobs (db st') !! 1 = Some (PrintJob.mk 1 "a.pdf" printing None (Some "")).
Proof.
  apply (no_token_still_printing ipp_config secure_filename_ascii
           (upload alice "a.pdf") (lp_prints "job accepted") init 1 "a.pdf"
           ltac:(split; [by exists "alice" | split; [reflexivity | discriminate]])
           ["lp"; "-d"; "office"; "/data/uploads/1700000000_a.pdf"] "job accepted").
  - reflexivity.
  - reflexivity.
  - reflexivity.
  - repeat constructor.
Defined.


(** A timeout of [lp], with the message of [subprocess.TimeoutExpired],
    fails the job. *)
Example timeout_fails_job :
  job_after (submit_print ipp_config secure_filename_ascii (upload alice "a.pdf")
               (lp_raises timeout_message) init) 1
  = Some (PrintJob.mk 1 "a.pdf" failed
            (Some timeout_message) None).
Proof. vm_compute. reflexivity. Qed.

(** C3, where the code departs from it: [check_output] raises an
    exception whose message is the empty string (a bare [MemoryError]),
    [_run_ipp_print] returns [(None, "")], the test [if err:] takes the
    empty message for no error, and the job is recorded as [printing]
    with no [error]. *)
Theorem empty_fault_message_goes_printing :
  _run_ipp_print ipp_config (check_output (lp_raises "")) "/data/uploads/1700000000_a.pdf"
  = Return (None, Some "")
  /\ job_after (submit_print ipp_config secure_filename_ascii (upload alice "a.pdf")
                  (lp_raises "") init) 1
     = Some (PrintJob.mk 1 "a.pdf" printing None (Some "")).
Proof. split; vm_compute; reflexivity. Qed.

(** ** Status queries *)

(** C4: a status query by a user other than the owner of the job is
    answered with 404 "not found", and that response is the one given
    for a job id that is in no row of the table. *)
Theorem foreign_job_not_found (d : DB) job_id job owner other username :
  print_jobs d !! job_id = Some job ->
  PrintJob.user_id job = owner ->
  other <> owner ->
  job_status (Bearer other username) job_id d = Error 404 "not found"
  /\ forall d' job_id',
       print_jobs d' !! job_id' = None ->
       job_status (Bearer other username) job_id' d'
       = job_status (Bearer other username) job_id d.
Proof.
  intros Hjob Howner Hother.
  assert (Hmine : job_status (Bearer other username) job_id d = Error 404 "not found").
  { unfold job_status, query_job; simpl. rewrite Hjob, Howner.
    destruct (Nat.eqb_spec owner other) as [-> |]; [done | reflexivity]. }
  split; [exact Hmine |].
  intros d' job_id' Hnone. rewrite Hmine.
  unfold job_status, query_job; simpl. by rewrite Hnone.
Qed.

Lemma foreign_job_not_found_witness :
  let d := db (state_after (submit_print mock_config secure_filename_ascii
                              (upload alice "a.pdf") (lp_prints "") init) init) in
  job_status bob 1 d = Error 404 "not found"
  /\ forall d' job_id',
       print_jobs d' !! job_id' = None ->
       job_status bob job_id' d' = job_status bob 1 d.
Proof.
  intros d.
  apply (foreign_job_not_found d 1 (new_job 1 "a.pdf") 1 2 "bob").
  - reflexivity.
  - reflexivity.
  - lia.
Defined.

(** ** Invariants of the runs *)

Lemma record_outcome_error ipp_id err job :
  PrintJob.error job = None ->
  has_error (record_outcome ipp_id err job)
  <-> PrintJob.status (record_outcome ipp_id err job) = failed.
Proof.
  intros Hnone. unfold has_error, record_outcome.
  destruct (Py.truthy_opt err) eqn:E; simpl; [by rewrite E |].
  rewrite Hnone; simpl. split; discriminate.
Qed.

Lemma completed_again job :
  PrintJob.status job = completed -> PrintJob.set_status completed job = job.
Proof. destruct job; simpl. by intros ->. Qed.

Lemma keys_below_add job d : keys_below d -> keys_below (add_job job d).1.
Proof.
  intros Hkeys j job'; simpl. rewrite lookup_insert.
  destruct (decide (next_id d = j)) as [<- |]; [lia |].
  intros Hj. apply Hkeys in Hj. lia.
Qed.

Lemma keys_below_update j f d : keys_below d -> keys_below (update_job j f d).
Proof.
  intros Hkeys j' job. rewrite lookup_update_job, next_id_update_job.
  destruct (decide (j = j')) as [<- |]; [| by apply Hkeys].
  destruct (print_jobs d !! j) as [job0 |] eqn:E; [| done].
  intros _. by apply (Hkeys j job0).
Qed.

Section Runs.

Variable cfg : Config.
Variable secure_filename : string -> string.

#[local] Abbreviation step := (step cfg secure_filename).
#[local] Abbreviation next := (next cfg secure_filename).
#[local] Abbreviation reachable := (reachable cfg secure_filename).

(** What a request to [/api/print] does to the state when nothing comes
    in between: nothing, or one new row under the next key. *)
Lemma submit_print_effect req env st st' resp :
  submit_print cfg secure_filename req env st = Return (st', resp) ->
  st' = st
  \/ exists job,
       st' = with_job cfg job st
       /\ (has_error job <-> PrintJob.status job = failed)
       /\ (ENABLE_IPP cfg = false ->
           PrintJob.status job = queued /\ PrintJob.error job = None).
Proof.
  intros Hsubmit.
  destruct (submit_print_cases cfg secure_filename req env st st' resp Hsubmit)
    as [[-> _] | (user_id & f_filename & Hvalid)]; [by left | right].
  unfold with_job. destruct (ENABLE_IPP cfg) eqn:Hmode.
  - destruct (run_ipp_print_returns cfg (check_output env)
                (upload_path cfg (now env) (secure_filename f_filename)))
      as (ipp_id & err & Hrun).
    rewrite (submit_print_ipp cfg secure_filename req env st user_id f_filename
               ipp_id err Hvalid Hmode Hrun) in Hsubmit.
    injection Hsubmit as <- _. eexists. split; [reflexivity |].
    split; [by apply record_outcome_error | discriminate].
  - rewrite (submit_print_mock cfg secure_filename req env st user_id f_filename
               Hvalid Hmode) in Hsubmit.
    injection Hsubmit as <- _. eexists. split; [reflexivity |].
    split; [| done]. unfold has_error; simpl. split; discriminate.
Qed.

(** The handler that runs without interleaving is the handler in two
    steps with nothing in between. *)
Lemma submit_print_in_two_steps req env st st' resp user_id f_filename :
  ENABLE_IPP cfg = true ->
  valid_submission req user_id f_filename ->
  handlers st !! next_id (db st) = None ->
  submit_print cfg secure_filename req env st = Return (st', resp) ->
  exists st1,
    step st (EvAccept req (now env)) st1
    /\ step st1 (EvDispatch (next_id (db st)) (check_output env) resp) st'.
Proof.
  intros Hon Hvalid Hfree Hsubmit.
  destruct (run_ipp_print_returns cfg (check_output env)
              (upload_path cfg (now env) (secure_filename f_filename)))
    as (ipp_id & err & Hrun).
  rewrite (submit_print_ipp cfg secure_filename req env st user_id f_filename
             ipp_id err Hvalid Hon Hrun) in Hsubmit.
  injection Hsubmit as <- <-.
  eexists. split; [by apply (step_accept cfg secure_filename st req (now env)
                               user_id f_filename) |].
  pose proof (step_dispatch cfg secure_filename
                {| db := (add_job (new_job user_id (secure_filename f_filename)) (db st)).1;
                   threads := threads st;
                   handlers := <[next_id (db st) :=
                                   upload_path cfg (now env) (secure_filename f_filename)]>
                                 (handlers st) |}
                (next_id (db st)) _ (check_output env) ipp_id err
                (lookup_insert_eq (handlers st) (next_id (db st))
                   (upload_path cfg (now env) (secure_filename f_filename)))
                Hrun) as Hdispatch.
  cbn [db threads handlers] in Hdispatch.
  rewrite update_added_job, (delete_insert_id _ _ _ Hfree) in Hdispatch.
  exact Hdispatch.
Qed.

Lemma step_keys_below st ev st' :
  step st ev st' -> keys_below (db st) -> keys_below (db st').
Proof.
  intros Hstep Hkeys.
  destruct Hstep as [st req env st' resp Hsubmit | st req now user_id f_filename _ _
                    | st job_id path co ipp_id err _ _ | | st job_id _
                    | st job_id path co ipp_id err e Hwaiting _ _]; simpl.
  - destruct (submit_print_effect req env st st' resp Hsubmit)
      as [-> | (job & -> & _)]; [done |].
    by apply (keys_below_add job).
  - by apply (keys_below_add (new_job user_id (secure_filename f_filename))).
  - by apply keys_below_update.
  - done.
  - by apply keys_below_update.
  - done.
Qed.

Lemma step_mode_inv st ev st' :
  step st ev st' -> mode_inv cfg st -> mode_inv cfg st'.
Proof.
  unfold mode_inv. intros Hstep Hinv.
  destruct Hstep as [st req env st' resp Hsubmit | st req now user_id f_filename Hon _
                    | st job_id path co ipp_id err Hhandler _ | | st job_id Hthread
                    | st job_id path co ipp_id err e Hwaiting _ _].
  - destruct (submit_print_effect req env st st' resp Hsubmit)
      as [-> | (job & -> & _ & Hnew)]; [done |].
    unfold with_job. destruct (ENABLE_IPP cfg); simpl; [done |].
    destruct Hinv as [Hnone Hrows]. split; [done |].
    intros j job'. rewrite lookup_insert.
    destruct (decide (next_id (db st) = j)); [| by apply Hrows].
    intros [= <-]. destruct (Hnew eq_refl) as [-> ->]. by auto.
  - by rewrite Hon in *.
  - destruct (ENABLE_IPP cfg); simpl; [done |].
    destruct Hinv as [Hnone _]. by rewrite Hnone, lookup_empty in Hhandler.
  - done.
  - destruct (ENABLE_IPP cfg); simpl; [done |].
    destruct Hinv as [Hnone Hrows]. split; [done |].
    intros j job. unfold _async_mock_complete. rewrite lookup_update_job.
    destruct (decide (job_id = j)) as [<- |]; [| by apply Hrows].
    destruct (print_jobs (db st) !! job_id) as [job0 |] eqn:E; [| done].
    intros [= <-]. destruct (Hrows job_id job0 E) as [_ Herr]. simpl. by auto.
  - destruct (ENABLE_IPP cfg); simpl; [done |].
    destruct Hinv as [Hnone _]. by rewrite Hnone, lookup_empty in Hwaiting.
Qed.

(** A completion thread exists only where no handler waits for [lp]. *)
Lemma thread_excludes_handlers st job_id :
  mode_inv cfg st -> job_id ∈ threads st -> handlers st = ∅.
Proof.
  unfold mode_inv. intros Hmode Hthread. destruct (ENABLE_IPP cfg).
  - rewrite Hmode in Hthread. by apply elem_of_nil in Hthread.
  - by destruct Hmode.
Qed.

Lemma step_handler_inv st ev st' :
  step st ev st' ->
  keys_below (db st) -> mode_inv cfg st -> handler_inv st -> handler_inv st'.
Proof.
  unfold handler_inv. intros Hstep Hkeys Hmode Hinv.
  destruct Hstep as [st req env st' resp Hsubmit | st req now user_id f_filename _ _
                    | st job_id path co ipp_id err _ _ | | st job_id Hthread
                    | st job_id path co ipp_id err e Hwaiting _ _].
  - destruct (submit_print_effect req env st st' resp Hsubmit)
      as [-> | (job & -> & _)]; [done |].
    intros j path Hj; simpl in *.
    destruct (Hinv j path Hj) as (job' & Hjob' & Hrest).
    exists job'. split; [| exact Hrest].
    rewrite lookup_insert_ne; [done |]. apply Hkeys in Hjob'. lia.
  - intros j path; simpl. rewrite !lookup_insert.
    destruct (decide (next_id (db st) = j)).
    + intros _. eexists. by split.
    + by apply Hinv.
  - intros j path'; simpl. rewrite lookup_delete, lookup_update_job.
    destruct (decide (job_id = j)); [done | by apply Hinv].
  - done.
  - intros j path; simpl.
    by rewrite (thread_excludes_handlers st job_id Hmode Hthread), lookup_empty.
  - intros j path'; simpl. rewrite lookup_delete.
    destruct (decide (job_id = j)); [done | by apply Hinv].
Qed.

Lemma step_error_iff_failed st ev st' :
  step st ev st' ->
  mode_inv cfg st -> handler_inv st -> error_iff_failed st -> error_iff_failed st'.
Proof.
  unfold error_iff_failed. intros Hstep Hmode Hhandlers Hinv.
  destruct Hstep as [st req env st' resp Hsubmit | st req now user_id f_filename _ _
                    | st job_id path co ipp_id err Hhandler _ | | st job_id Hthread
                    | st job_id path co ipp_id err e Hwaiting _ _].
  - destruct (submit_print_effect req env st st' resp Hsubmit)
      as [-> | (job & -> & Hnew & _)]; [done |].
    intros j job'; simpl. rewrite lookup_insert.
    destruct (decide (next_id (db st) = j)); [| by apply Hinv].
    by intros [= <-].
  - intros j job; simpl. rewrite lookup_insert.
    destruct (decide (next_id (db st) = j)); [| by apply Hinv].
    intros [= <-]. unfold has_error; simpl. split; discriminate.
  - intros j job; simpl. rewrite lookup_update_job.
    destruct (decide (job_id = j)) as [<- |]; [| by apply Hinv].
    destruct (Hhandlers job_id path Hhandler) as (job0 & -> & _ & Hnone); simpl.
    intros [= <-]. by apply record_outcome_error.
  - done.
  - unfold mode_inv in Hmode. destruct (ENABLE_IPP cfg).
    + rewrite Hmode in Hthread. by apply elem_of_nil in Hthread.
    + destruct Hmode as [_ Hrows].
      intros j job; simpl. unfold _async_mock_complete. rewrite lookup_update_job.
      destruct (decide (job_id = j)) as [<- |]; [| by apply Hinv].
      destruct (print_jobs (db st) !! job_id) as [job0 |] eqn:E; [| done].
      intros [= <-]. destruct (Hrows job_id job0 E) as [_ Herr].
      unfold has_error; simpl. rewrite Herr; simpl. split; discriminate.
  - exact Hinv.
Qed.

Lemma init_invariant : invariant cfg init.
Proof.
  split; [| split; [| split]].
  - intros j job; simpl. by rewrite lookup_empty.
  - unfold mode_inv. destruct (ENABLE_IPP cfg); [done |].
    split; [done |]. intros j job; simpl. by rewrite lookup_empty.
  - intros j path; simpl. by rewrite lookup_empty.
  - intros j job; simpl. by rewrite lookup_empty.
Qed.

Lemma step_invariant st ev st' : step st ev st' -> invariant cfg st -> invariant cfg st'.
Proof.
  intros Hstep (Hkeys & Hmode & Hhandlers & Herr). repeat apply conj.
  - by eapply step_keys_below.
  - by eapply step_mode_inv.
  - by eapply step_handler_inv.
  - by eapply step_error_iff_failed.
Qed.

Lemma reachable_invariant st : reachable st -> invariant cfg st.
Proof.
  intros Hreach. red in Hreach. revert st Hreach. apply rtc_ind_r.
  - apply init_invariant.
  - intros st st' _ [ev Hstep] Hinv. by eapply step_invariant.
Qed.

Lemma reachable_next st st' : reachable st -> rtc next st st' -> reachable st'.
Proof. intros Hreach Hrun. by eapply rtc_trans. Qed.

(** A row that has left [queued] is not written again by any step that
    can follow in a run. *)
Lemma step_keeps_settled st ev st' j job :
  step st ev st' ->
  invariant cfg st ->
  print_jobs (db st) !! j = Some job ->
  PrintJob.status job <> queued ->
  print_jobs (db st') !! j = Some job.
Proof.
  intros Hstep (Hkeys & Hmode & Hhandlers & _) Hjob Hsettled.
  destruct Hstep as [st req env st' resp Hsubmit | st req now user_id f_filename _ _
                    | st job_id path co ipp_id err Hhandler _ | | st job_id Hthread
                    | st job_id path co ipp_id err e Hwaiting _ _].
  - destruct (submit_print_effect req env st st' resp Hsubmit)
      as [-> | (job' & -> & _)]; [done |].
    simpl. rewrite lookup_insert_ne; [done |].
    apply Hkeys in Hjob. lia.
  - simpl. rewrite lookup_insert_ne; [done |].
    apply Hkeys in Hjob. lia.
  - simpl. rewrite lookup_update_job.
    destruct (decide (job_id = j)) as [-> |]; [| done].
    destruct (Hhandlers j path Hhandler) as (job0 & Hjob0 & Hqueued & _).
    congruence.
  - done.
  - simpl. unfold _async_mock_complete. rewrite lookup_update_job.
    destruct (decide (job_id = j)) as [-> |]; [| done].
    rewrite Hjob; simpl. f_equal. apply completed_again.
    unfold mode_inv in Hmode. destruct (ENABLE_IPP cfg).
    + rewrite Hmode in Hthread. by apply elem_of_nil in Hthread.
    + destruct Hmode as [_ Hrows].
      destruct (Hrows j job Hjob) as [[Hq | Hc] _]; [done | exact Hc].
  - exact Hjob.
Qed.

(** No step deletes a row. *)
Lemma step_keeps_rows st ev st' j job :
  step st ev st' ->
  keys_below (db st) ->
  print_jobs (db st) !! j = Some job ->
  is_Some (print_jobs (db st') !! j).
Proof.
  intros Hstep Hkeys Hjob.
  destruct Hstep as [st req env st' resp Hsubmit | st req now user_id f_filename _ _
                    | st job_id path co ipp_id err _ _ | | st job_id _
                    | st job_id path co ipp_id err e Hwaiting _ _].
  - destruct (submit_print_effect req env st st' resp Hsubmit)
      as [-> | (job' & -> & _)]; [by eexists |].
    simpl. rewrite lookup_insert_ne; [by eexists |].
    apply Hkeys in Hjob. lia.
  - simpl. rewrite lookup_insert_ne; [by eexists |].
    apply Hkeys in Hjob. lia.
  - simpl. rewrite lookup_update_job.
    destruct (decide (job_id = j)) as [-> |]; [| by eexists].
    rewrite Hjob. by eexists.
  - by eexists.
  - simpl. unfold _async_mock_complete. rewrite lookup_update_job.
    destruct (decide (job_id = j)) as [-> |]; [| by eexists].
    rewrite Hjob. by eexists.
  - by eexists.
Qed.

Lemma run_keeps_rows st st' j job :
  reachable st ->
  rtc next st st' ->
  print_jobs (db st) !! j = Some job ->
  reachable st' /\ is_Some (print_jobs (db st') !! j).
Proof.
  intros Hreach Hrun Hjob. revert st' Hrun. apply rtc_ind_r.
  - split; [exact Hreach | by eexists].
  - intros st1 st2 _ [ev Hstep] [Hreach1 [job1 Hjob1]]. split.
    + eapply rtc_r; [exact Hreach1 | by exists ev].
    + apply reachable_invariant in Hreach1 as (Hkeys & _).
      by eapply step_keeps_rows.
Qed.

(** C1: in a run of the service, a row whose status has left [queued] is
    the same row in every later state, whatever requests and completion
    signals follow, a signal for the same job id delivered again
    included; and a completion signal that can be delivered for such a
    job leaves the store as it is. *)
Theorem settled_job_never_changes st j job :
  reachable st ->
  print_jobs (db st) !! j = Some job ->
  PrintJob.status job <> queued ->
  (forall st', rtc next st st' -> print_jobs (db st') !! j = Some job)
  /\ (j ∈ threads st -> _async_mock_complete j (db st) = db st).
Proof.
  intros Hreach Hjob Hsettled. split.
  - intros st' Hrun.
    cut (reachable st' /\ print_jobs (db st') !! j = Some job); [by intros [_ ?] |].
    revert st' Hrun. apply rtc_ind_r; [by split |].
    intros st1 st2 _ [ev Hstep] [Hreach1 Hjob1]. split.
    + eapply rtc_r; [exact Hreach1 | by exists ev].
    + apply reachable_invariant in Hreach1. by eapply step_keeps_settled.
  - intros Hthread.
    apply reachable_invariant in Hreach as (_ & Hmode & _).
    unfold mode_inv in Hmode. destruct (ENABLE_IPP cfg).
    + rewrite Hmode in Hthread. by apply elem_of_nil in Hthread.
    + destruct Hmode as [_ Hrows].
      destruct (Hrows j job Hjob) as [[Hq | Hc] _]; [done |].
      unfold _async_mock_complete, update_job. rewrite Hjob.
      rewrite (completed_again job Hc), (insert_id _ _ _ Hjob).
      by destruct (db st).
Qed.

(** C6: in every state of a run, a job has a non-empty [error] exactly
    when its status is [failed]. *)
Theorem error_set_iff_failed st j job :
  reachable st ->
  print_jobs (db st) !! j = Some job ->
  has_error job <-> PrintJob.status job = failed.
Proof.
  intros Hreach Hjob.
  apply reachable_invariant in Hreach as (_ & _ & _ & Herr). by apply (Herr j).
Qed.

(** C9: with the simulated backend, a valid submission creates its job
    as [queued] with no [error] and starts a completion thread for it;
    whatever happens in between, when that thread fires the job is
    [completed] and still has no [error]. *)
Theorem simulated_job_completes req env st user_id f_filename :
  ENABLE_IPP cfg = false ->
  reachable st ->
  valid_submission req user_id f_filename ->
  exists st1,
    submit_print cfg secure_filename req env st = Return (st1, JobId (next_id (db st)))
    /\ print_jobs (db st1) !! next_id (db st)
       = Some (PrintJob.mk user_id (secure_filename f_filename) queued None None)
    /\ next_id (db st) ∈ threads st1
    /\ forall st2, rtc next st1 st2 ->
         exists job,
           print_jobs (_async_mock_complete (next_id (db st)) (db st2)) !! next_id (db st)
           = Some job
           /\ PrintJob.status job = completed
           /\ PrintJob.error job = None.
Proof.
  intros Hoff Hreach Hvalid.
  pose proof (submit_print_mock cfg secure_filename req env st user_id f_filename
                Hvalid Hoff) as Hsubmit.
  eexists. split; [exact Hsubmit |].
  assert (Hnew : print_jobs (add_job (new_job user_id (secure_filename f_filename)) (db st)).1
                 !! next_id (db st)
                 = Some (PrintJob.mk user_id (secure_filename f_filename) queued None None)).
  { simpl. by rewrite lookup_insert_eq. }
  split; [exact Hnew |]. split.
  { simpl. apply elem_of_app. right. by left. }
  intros st2 Hrun.
  assert (Hreach1 : reachable
            {| db := (add_job (new_job user_id (secure_filename f_filename)) (db st)).1;
               threads := threads st ++ [next_id (db st)];
             handlers := handlers st |}).
  { eapply rtc_r; [exact Hreach |]. eexists. apply step_submit. exact Hsubmit. }
  destruct (run_keeps_rows _ st2 _ _ Hreach1 Hrun Hnew) as [Hreach2 [job2 Hjob2]].
  apply reachable_invariant in Hreach2 as (_ & Hmode & _).
  unfold mode_inv in Hmode. rewrite Hoff in Hmode. destruct Hmode as [_ Hrows].
  destruct (Hrows _ _ Hjob2) as [_ Herr].
  exists (PrintJob.set_status completed job2).
  unfold _async_mock_complete. rewrite lookup_update_job.
  destruct (decide (next_id (db st) = next_id (db st))); [| done].
  rewrite Hjob2. by repeat split.
Qed.

End Runs.

(** Two uploads under the protocol backend whose handlers overlap: both
    rows are created before either call of [lp] returns, and the second
    upload is dispatched first. *)
Example overlapping_handlers :
  exists st,
    reachable ipp_config secure_filename_ascii st
    /\ print_jobs (db st) !! 1
       = Some (PrintJob.mk 1 "a.pdf" failed (Some "lp failed: no such printer") None)
    /\ print_jobs (db st) !! 2
       = Some (PrintJob.mk 2 "b.pdf" printing None (Some "office-7")).
Proof.
  eexists. split.
  - eapply rtc_l.
    { exists (EvAccept (upload alice "a.pdf") 1700000000).
      apply (step_accept ipp_config secure_filename_ascii init (upload alice "a.pdf")
               1700000000 1 "a.pdf"); [reflexivity | by apply upload_valid]. }
    eapply rtc_l.
    { exists (EvAccept (upload bob "b.pdf") 1700000001).
      apply (step_accept ipp_config secure_filename_ascii _ (upload bob "b.pdf")
               1700000001 2 "b.pdf"); [reflexivity | by apply upload_valid]. }
    eapply rtc_l.
    { eexists.
      apply (step_dispatch ipp_config secure_filename_ascii _ 2
               "/data/uploads/1700000001_b.pdf"
               (check_output (lp_prints "request id is office-7 (1 file(s))"))
               (Some "office-7") None); reflexivity. }
    apply rtc_once. eexists.
    apply (step_dispatch ipp_config secure_filename_ascii _ 1
             "/data/uploads/1700000000_a.pdf"
             (check_output (lp_exits 1 "no such printer"))
             None (Some "lp failed: no such printer")); reflexivity.
  - split; reflexivity.
Qed.

Lemma queued_state_reachable : reachable mock_config secure_filename_ascii queued_state.
Proof.
  apply rtc_once. exists (EvSubmit (upload alice "a.pdf") (lp_prints "") (JobId 1)).
  apply step_submit. reflexivity.
Qed.

Lemma completed_state_reachable : reachable mock_config secure_filename_ascii completed_state.
Proof.
  eapply rtc_r; [exact queued_state_reachable |].
  exists (EvComplete 1). apply (step_complete mock_config secure_filename_ascii queued_state 1).
  vm_compute. by left.
Qed.

Lemma failed_state_reachable :
  reachable unconfigured_ipp_config secure_filename_ascii failed_state.
Proof.
  apply rtc_once. exists (EvSubmit (upload alice "a.pdf") (lp_prints "") (JobId 1)).
  apply step_submit. reflexivity.
Qed.

Lemma settled_job_never_changes_witness :
  let job := PrintJob.mk 1 "a.pdf" completed None None in
  (forall st', rtc (next mock_config secure_filename_ascii) completed_state st' ->
               print_jobs (db st') !! 1 = Some job)
  /\ (1 ∈ threads completed_state ->
      _async_mock_complete 1 (db completed_state) = db completed_state).
Proof.
  intros job.
  apply (settled_job_never_changes mock_config secure_filename_ascii completed_state 1 job).
  - exact completed_state_reachable.
  - reflexivity.
  - discriminate.
Defined.

Lemma error_set_iff_failed_witness :
  let job := PrintJob.mk 1 "a.pdf" failed
               (Some "No PRINTER_URI or PRINTER_NAME configured") None in
  has_error job <-> PrintJob.status job = failed.
Proof.
  intros job.
  apply (error_set_iff_failed unconfigured_ipp_config secure_filename_ascii failed_state 1 job).
  - exact failed_state_reachable.
  - reflexivity.
Defined.

Lemma simulated_job_completes_witness :
  exists st1,
    submit_print mock_config secure_filename_ascii (upload bob "b.pdf") (lp_prints "")
      queued_state = Return (st1, JobId 2)
    /\ print_jobs (db st1) !! 2 = Some (PrintJob.mk 2 "b.pdf" queued None None)
    /\ 2 ∈ threads st1
    /\ forall st2, rtc (next mock_config secure_filename_ascii) st1 st2 ->
         exists job,
           print_jobs (_async_mock_complete 2 (db st2)) !! 2 = Some job
           /\ PrintJob.status job = completed
           /\ PrintJob.error job = None.
Proof.
  apply (simulated_job_completes mock_config secure_filename_ascii (upload bob "b.pdf")
           (lp_prints "") queued_state 2 "b.pdf").
  - reflexivity.
  - exact queued_state_reachable.
  - split; [by exists "bob" | split; [reflexivity | discriminate]].
Defined.

(** ** Start-up *)

Lemma init_db_from_retries create_all attempt remaining slept k :
  k <= remaining ->
  (forall i, i < k -> create_all (attempt + i) = OperationalError) ->
  init_db_from create_all attempt remaining slept
  = init_db_from create_all (attempt + k) (remaining - k) (slept + 2 * k).
Proof.
  revert attempt remaining slept.
  induction k as [| k IH]; intros attempt remaining slept Hle Hfail.
  - f_equal; lia.
  - destruct remaining as [| remaining]; [lia |]. simpl init_db_from at 1.
    pose proof (Hfail 0 ltac:(lia)) as H0. rewrite Nat.add_0_r in H0. rewrite H0.
    rewrite IH; [f_equal; lia | lia |].
    intros i Hi. replace (S attempt + i) with (attempt + S i) by lia.
    apply Hfail. lia.
Qed.

(** X1: [init_db] ends at the first of its 30 attempts that does not raise
    [OperationalError], after two seconds of sleep for every attempt
    before it: it returns if that attempt succeeds, and lets any other
    exception through without a further attempt. *)
Theorem init_db_first_answer create_all k :
  k < 30 ->
  (forall i, i < k -> create_all i = OperationalError) ->
  create_all k <> OperationalError ->
  init_db create_all
  = (match create_all k with
     | OtherFailure message => Propagated message
     | _ => Initialised
     end, 2 * k).
Proof.
  intros Hk Hfail Hanswer. unfold init_db.
  rewrite (init_db_from_retries create_all 0 30 0 k); [| lia | exact Hfail].
  destruct (30 - k) as [| remaining] eqn:E; [lia |]. simpl.
  destruct (create_all k); [reflexivity | done | reflexivity].
Qed.

Lemma init_db_first_answer_witness : init_db (db_up_after 3) = (Initialised, 6).
Proof.
  apply (init_db_first_answer (db_up_after 3) 3).
  - lia.
  - intros i Hi. unfold db_up_after.
    destruct (Nat.ltb_spec i 3) as [_ | Hge]; [reflexivity | lia].
  - discriminate.
Defined.

(** X2: When the first 30 attempts all raise [OperationalError], [init_db]
    raises [RuntimeError("DB init failed")] after 60 seconds of sleep,
    and no 31st attempt is made: what [create_all] would do from then on
    does not matter. *)
Theorem init_db_gives_up create_all :
  (forall i, i < 30 -> create_all i = OperationalError) ->
  init_db create_all = (RuntimeError "DB init failed", 60).
Proof.
  intros Hfail. unfold init_db.
  by rewrite (init_db_from_retries create_all 0 30 0 30); [| lia | exact Hfail].
Qed.

Lemma init_db_gives_up_witness :
  init_db (db_up_after 30) = (RuntimeError "DB init failed", 60).
Proof.
  apply (init_db_gives_up (db_up_after 30)).
  intros i Hi. unfold db_up_after.
  destruct (Nat.ltb_spec i 30) as [_ | Hge]; [reflexivity | lia].
Defined.

(** ** The bearer header *)

Lemma append_cons a p t : String a p +:+ t = String a (p +:+ t).
Proof. reflexivity. Qed.

Lemma append_nil t : "" +:+ t = t.
Proof. reflexivity. Qed.

Lemma prefix_app p s : String.prefix p s = true <-> exists t, s = p +:+ t.
Proof.
  revert s. induction p as [| a p IH]; intros s.
  - destruct s; simpl; split; intros _; [by exists "" | done | by eexists | done].
  - destruct s as [| b s]; simpl.
    + split; [discriminate | by intros [t [=]]].
    + destruct (ascii_dec a b) as [<- | Hne].
      * rewrite IH. split; intros [t Ht]; exists t; rewrite append_cons in *; congruence.
      * split; [discriminate |]. intros [t Ht]. rewrite append_cons in Ht. congruence.
Qed.

(** X3: A request passes the first test of [auth_required] exactly when its
    header is ["Bearer "] followed by some text, and that text, whatever
    it holds, further spaces included, is the token; every other header,
    the missing one and a lower-case scheme included, is answered 401
    "Unauthorized". The index never raises. *)
Theorem bearer_token_spec authorization :
  (forall token,
     bearer_token authorization = Return (inr token)
     <-> authorization = "Bearer " +:+ token)
  /\ ((exists token, authorization = "Bearer " +:+ token)
      \/ bearer_token authorization = Return (inl (Error 401 "Unauthorized"))).
Proof.
  unfold bearer_token, Py.startswith.
  destruct (String.prefix "Bearer " authorization) eqn:E; simpl.
  - apply prefix_app in E as [t ->]. split; [| by eauto].
    intros token. rewrite !append_cons, !append_nil. simpl.
    split; [by intros [= ->] | by intros [= ->]].
  - split; [| by right].
    intros token. split; [discriminate |].
    intros ->. by rewrite (proj2 (prefix_app "Bearer " _)) in E; [| eexists].
Qed.

Example bearer_token_cases :
  map bearer_token [""; "bearer abc"; "Bearer"; "Bearer "; "Bearer a b"; "Basic abc"]
  = [Return (inl (Error 401 "Unauthorized")); Return (inl (Error 401 "Unauthorized"));
     Return (inl (Error 401 "Unauthorized")); Return (inr "");
     Return (inr "a b"); Return (inl (Error 401 "Unauthorized"))].
Proof. reflexivity. Qed.

(** ** What [_run_ipp_print] returns *)

Lemma split_sep_plain sep s : Py.contains sep s = false -> Py.split_sep sep s = [s].
Proof.
  induction s as [| c s IH]; simpl; [done |].
  rewrite (Ascii.eqb_sym sep c).
  destruct (Ascii.eqb c sep); simpl; [discriminate |].
  intros Hs. by rewrite (IH Hs).
Qed.

Lemma last_item_cons x l : l <> [] -> Py.last_item (x :: l) = Py.last_item l.
Proof. destruct l; [done | reflexivity]. Qed.

Lemma contains_app_sep sep head suffix :
  Py.contains sep (head +:+ String sep suffix) = true.
Proof.
  induction head as [| c head IH].
  - rewrite append_nil; simpl. by rewrite Ascii.eqb_refl.
  - rewrite append_cons; simpl. rewrite IH. apply orb_true_r.
Qed.

Lemma split_sep_two sep s :
  Py.contains sep s = true ->
  exists piece piece' pieces, Py.split_sep sep s = piece :: piece' :: pieces.
Proof.
  induction s as [| c s IH]; simpl; [discriminate |].
  rewrite (Ascii.eqb_sym sep c). destruct (Ascii.eqb c sep); simpl.
  - intros _. pose proof (split_sep_nonempty sep s) as Hne.
    destruct (Py.split_sep sep s) as [| piece' pieces]; [done | by eauto].
  - intros Hs. destruct (IH Hs) as (piece & piece' & pieces & ->). by eauto.
Qed.

(** The text after the last [sep] of a string that holds one. *)
Lemma last_item_after_sep sep head suffix :
  Py.contains sep suffix = false ->
  Py.last_item (Py.split_sep sep (head +:+ String sep suffix)) = Some suffix.
Proof.
  intros Hsuffix. induction head as [| c head IH].
  - rewrite append_nil; simpl. rewrite Ascii.eqb_refl.
    rewrite last_item_cons by apply split_sep_nonempty.
    by rewrite (split_sep_plain sep suffix Hsuffix).
  - rewrite append_cons; simpl.
    destruct (split_sep_two sep _ (contains_app_sep sep head suffix))
      as (piece & piece' & pieces & Hsplit).
    rewrite Hsplit in IH |- *.
    destruct (Ascii.eqb c sep); [by rewrite last_item_cons |].
    rewrite last_item_cons by done. by rewrite last_item_cons in IH.
Qed.

(** A string that holds [sep] splits at its last [sep]. *)
Lemma contains_last_sep sep s :
  Py.contains sep s = true ->
  exists head suffix, s = head +:+ String sep suffix /\ Py.contains sep suffix = false.
Proof.
  induction s as [| c s IH]; simpl; [discriminate |].
  destruct (Py.contains sep s) eqn:Hs.
  - intros _. destruct (IH eq_refl) as (head & suffix & -> & Hsuffix).
    exists (String c head), suffix. by rewrite append_cons.
  - rewrite orb_false_r. intros Hc. apply Ascii.eqb_eq in Hc as <-.
    exists "", s. by rewrite append_nil.
Qed.

Lemma digits_hold_no_dash s :
  Py.all_chars Py.isdigit_char s = true -> Py.contains "-" s = false.
Proof.
  induction s as [| c s IH]; [done |].
  intros H. simpl in H. apply andb_prop in H as [Hc Hs].
  change (Py.contains "-" (String c s)) with (Ascii.eqb "-" c || Py.contains "-" s).
  rewrite (IH Hs), orb_false_r. apply Ascii.eqb_neq. intros <-. discriminate Hc.
Qed.

(** X4: The test of the scan: a part passes exactly when it is some text, a
    ["-"], and a non-empty run of digits. A part of digits alone does not
    pass, and neither does a part that ends in ["-"]. *)
Theorem is_job_token_spec part :
  is_job_token part = true
  <-> exists head digits, part = head +:+ String "-" digits /\ Py.isdigit digits = true.
Proof.
  unfold is_job_token. split.
  - intros H. apply andb_prop in H as [Hdash Hlast].
    destruct (contains_last_sep "-" part Hdash) as (head & suffix & -> & Hsuffix).
    rewrite (last_item_after_sep "-" head suffix Hsuffix) in Hlast. by eauto.
  - intros (head & digits & -> & Hdigits).
    rewrite contains_app_sep; simpl.
    rewrite last_item_after_sep; [exact Hdigits |].
    apply digits_hold_no_dash. unfold Py.isdigit in Hdigits.
    by apply andb_prop in Hdigits as [_ ?].
Qed.

Lemma scan_parts_some parts t :
  scan_parts parts = Some t ->
  exists part, part ∈ parts /\ is_job_token part = true /\ t = Py.strip part.
Proof.
  induction parts as [| p parts IH]; simpl; [discriminate |].
  destruct (is_job_token p) eqn:E.
  - intros [= <-]. exists p. split; [by left | done].
  - intros H. destruct (IH H) as (part & Hin & Htok & Ht).
    exists part. split; [by right | done].
Qed.

(** X5: An identifier that [_run_ipp_print] returns comes with no error, and
    it is one of the parts of what [lp] printed on a successful exit: it
    passes the test of the scan, is not empty and holds no white
    space. *)
Theorem run_ipp_print_id cfg check_output local_path t err :
  _run_ipp_print cfg check_output local_path = Return (Some t, err) ->
  err = None
  /\ ENABLE_IPP cfg = true
  /\ exists cmd out,
       lp_command cfg local_path = Some cmd
       /\ check_output cmd = Return out
       /\ t ∈ Py.split out
       /\ is_job_token t = true
       /\ clean_token t.
Proof.
  unfold _run_ipp_print.
  destruct (ENABLE_IPP cfg); simpl; [| discriminate].
  destruct (lp_command cfg local_path) as [cmd |]; [| discriminate].
  destruct (check_output cmd) as [out | [code output | message]] eqn:Hout; simpl;
    [| discriminate | discriminate].
  intros [= Hscan <-]. split; [done |]. split; [done |].
  destruct (scan_parts_some _ _ Hscan) as (part & Hin & Htok & ->).
  rewrite (strip_token out part Hin).
  exists cmd, out. repeat split; try done.
  - pose proof (split_clean out) as Hall. rewrite Forall_forall in Hall.
    by destruct (Hall part Hin).
  - pose proof (split_clean out) as Hall. rewrite Forall_forall in Hall.
    by destruct (Hall part Hin).
Qed.

Lemma run_ipp_print_id_witness :
  (None : option string) = None
  /\ ENABLE_IPP ipp_config = true
  /\ exists cmd out,
       lp_command ipp_config "/data/uploads/1700000000_a.pdf" = Some cmd
       /\ check_output (lp_prints two_ids_output) cmd = Return out
       /\ "office-42" ∈ Py.split out
       /\ is_job_token "office-42" = true
       /\ clean_token "office-42".
Proof.
  apply (run_ipp_print_id ipp_config (check_output (lp_prints two_ids_output))
           "/data/uploads/1700000000_a.pdf" "office-42" None).
  reflexivity.
Defined.

(** X6: With [PRINTER_NAME] set, [PRINTER_URI] plays no part: [lp] is run
    with [-d PRINTER_NAME], and two configurations that differ in the URI
    alone give the same result. *)
Theorem printer_name_wins cfg cfg' check_output local_path :
  ENABLE_IPP cfg = ENABLE_IPP cfg' ->
  PRINTER_NAME cfg = PRINTER_NAME cfg' ->
  PRINTER_NAME cfg <> "" ->
  lp_command cfg local_path = Some ["lp"; "-d"; PRINTER_NAME cfg; local_path]
  /\ _run_ipp_print cfg check_output local_path
     = _run_ipp_print cfg' check_output local_path.
Proof.
  intros Hmode Hname Hset.
  assert (Hcmd : forall c, PRINTER_NAME c = PRINTER_NAME cfg ->
            lp_command c local_path = Some ["lp"; "-d"; PRINTER_NAME cfg; local_path]).
  { intros c Hc. unfold lp_command. rewrite Hc.
    by destruct (PRINTER_NAME cfg). }
  split; [by apply Hcmd |].
  unfold _run_ipp_print. by rewrite <- Hmode, !Hcmd.
Qed.

Lemma printer_name_wins_witness :
  let cfg' := {| ENABLE_IPP := true; PRINTER_URI := "ipp://printer.local/ipp/print";
                 PRINTER_NAME := "office"; UPLOAD_DIR := "/srv" |} in
  lp_command ipp_config "/f" = Some ["lp"; "-d"; "office"; "/f"]
  /\ _run_ipp_print ipp_config (check_output (lp_prints two_ids_output)) "/f"
     = _run_ipp_print cfg' (check_output (lp_prints two_ids_output)) "/f".
Proof.
  intros cfg'.
  apply (printer_name_wins ipp_config cfg' (check_output (lp_prints two_ids_output)) "/f").
  - reflexivity.
  - reflexivity.
  - discriminate.
Defined.

(** ** The path of an upload *)

Lemma uint_digits d : Py.all_chars Py.isdigit_char (NilEmpty.string_of_uint d) = true.
Proof. induction d; simpl; [reflexivity | exact IHd ..]. Qed.

Lemma digits_hold_none c s :
  Py.isdigit_char c = false ->
  Py.all_chars Py.isdigit_char s = true -> Py.contains c s = false.
Proof.
  intros Hc. induction s as [| d s IH]; [done |].
  intros H. simpl in H. apply andb_prop in H as [Hd Hs].
  change (Py.contains c (String d s)) with (Ascii.eqb c d || Py.contains c s).
  rewrite (IH Hs), orb_false_r. apply Ascii.eqb_neq. intros <-. congruence.
Qed.

(** [str(n)] is a non-empty run of digits, after a ["-"] when [n] is
    negative. *)
Lemma str_of_int_shape n :
  exists sign digits,
    Py.str_of_int n = sign +:+ digits
    /\ (sign = "" \/ sign = "-")
    /\ Py.isdigit digits = true.
Proof.
  unfold Py.str_of_int.
  assert (Huint : forall d, Py.isdigit (NilZero.string_of_uint d) = true).
  { intros d. unfold Py.isdigit. destruct d; simpl; try reflexivity; apply uint_digits. }
  destruct (Z.to_int n) as [d | d]; simpl.
  - exists "", (NilZero.string_of_uint d). by auto.
  - exists "-", (NilZero.string_of_uint d). by auto.
Qed.

Lemma str_of_int_no c n :
  Py.isdigit_char c = false -> c <> "-"%char -> Py.contains c (Py.str_of_int n) = false.
Proof.
  intros Hc Hdash. destruct (str_of_int_shape n) as (sign & digits & -> & Hsign & Hdigits).
  unfold Py.isdigit in Hdigits. apply andb_prop in Hdigits as [_ Hdigits].
  destruct Hsign as [-> | ->].
  - rewrite append_nil. by apply digits_hold_none.
  - rewrite append_cons, append_nil.
    change (Ascii.eqb c "-" || Py.contains c digits = false).
    rewrite (digits_hold_none c digits Hc Hdigits), orb_false_r.
    by apply Ascii.eqb_neq.
Qed.

Lemma str_of_int_inj a b : Py.str_of_int a = Py.str_of_int b -> a = b.
Proof.
  unfold Py.str_of_int. intros Heq.
  assert (Hparse : forall z, NilZero.int_of_string (NilZero.string_of_int (Z.to_int z))
                             = Some (Z.to_int z)).
  { intros z. apply NilZero.isi; destruct z; simpl; try discriminate;
      intros [= H]; by apply DecimalPos.Unsigned.to_uint_nonnil in H. }
  pose proof (Hparse a) as Ha. rewrite Heq, Hparse in Ha. injection Ha as Ha.
  by rewrite <- (DecimalZ.of_to a), <- (DecimalZ.of_to b), Ha.
Qed.

Lemma path_join_relative a c rest :
  c <> "/"%char ->
  Py.path_join a (String c rest) = a +:+ dir_sep a +:+ String c rest.
Proof.
  intros Hc. unfold Py.path_join, dir_sep.
  assert (Hrel : match a with
                 | EmptyString => String c rest
                 | String _ _ =>
                     if String.eqb (substring (String.length a - 1) 1 a) "/"
                     then a +:+ String c rest else a +:+ "/" +:+ String c rest
                 end
                 = a +:+ match a with
                         | EmptyString => ""
                         | String _ _ =>
                             if String.eqb (substring (String.length a - 1) 1 a) "/"
                             then "" else "/"
                         end +:+ String c rest).
  { destruct a as [| a0 a]; [reflexivity |].
    by destruct (String.eqb (substring (String.length (String a0 a) - 1) 1 (String a0 a)) "/"). }
  rewrite <- Hrel.
  destruct c as [[|] [|] [|] [|] [|] [|] [|] [|]]; try reflexivity. by destruct Hc.
Qed.

Lemma append_inj_l a x y : a +:+ x = a +:+ y -> x = y.
Proof.
  induction a as [| c a IH]; [by rewrite !append_nil |].
  rewrite !append_cons. intros [= H]. by apply IH.
Qed.

(** Two texts free of [sep], each followed by [sep] and more text, are
    equal only part by part. *)
Lemma split_at_first_sep sep s1 s2 x1 x2 :
  Py.contains sep s1 = false ->
  Py.contains sep s2 = false ->
  s1 +:+ String sep x1 = s2 +:+ String sep x2 ->
  s1 = s2 /\ x1 = x2.
Proof.
  revert s2. induction s1 as [| c s1 IH]; intros s2 H1 H2.
  - destruct s2 as [| d s2].
    + rewrite !append_nil. by intros [= ->].
    + rewrite append_nil, append_cons. intros [= <- _].
      simpl in H2. by rewrite Ascii.eqb_refl in H2.
  - destruct s2 as [| d s2].
    + rewrite append_nil, append_cons. intros [= -> _].
      simpl in H1. by rewrite Ascii.eqb_refl in H1.
    + rewrite !append_cons. intros [= -> Hrest].
      simpl in H1, H2. apply orb_false_elim in H1 as [_ H1].
      apply orb_false_elim in H2 as [_ H2].
      destruct (IH s2 H1 H2 Hrest) as [-> ->]. done.
Qed.

Lemma upload_path_parts cfg now filename :
  upload_path cfg now filename
  = UPLOAD_DIR cfg +:+ dir_sep (UPLOAD_DIR cfg) +:+ Py.str_of_int now +:+ "_" +:+ filename.
Proof.
  unfold upload_path.
  destruct (str_of_int_shape now) as (sign & digits & Hstr & Hsign & Hdigits).
  destruct (Py.str_of_int now +:+ "_" +:+ filename) as [| c rest] eqn:E.
  { rewrite Hstr in E. destruct Hsign as [-> | ->]; [| by rewrite append_cons in E].
    rewrite append_nil in E. destruct digits; [discriminate Hdigits |].
    by rewrite append_cons in E. }
  apply path_join_relative. intros ->.
  rewrite Hstr in E. destruct Hsign as [-> | ->].
  - rewrite append_nil in E. destruct digits as [| d digits]; [discriminate Hdigits |].
    rewrite append_cons in E. injection E as -> _.
    unfold Py.isdigit in Hdigits. simpl in Hdigits. discriminate Hdigits.
  - rewrite append_cons in E. discriminate E.
Qed.

(** X9: The file of an upload is saved under [UPLOAD_DIR], whatever its name
    and the time: the path is [UPLOAD_DIR], a ["/"] unless [UPLOAD_DIR]
    is empty or ends in one, the time in seconds, ["_"] and the
    sanitized name. *)
Theorem upload_path_shape cfg now filename :
  upload_path cfg now filename
  = UPLOAD_DIR cfg +:+ dir_sep (UPLOAD_DIR cfg) +:+ Py.str_of_int now +:+ "_" +:+ filename.
Proof. apply upload_path_parts. Qed.

(** X10: Two uploads under one configuration are saved to the same path
    exactly when they arrive in the same second with names that sanitize
    to the same text. *)
Theorem upload_path_collision cfg now1 filename1 now2 filename2 :
  upload_path cfg now1 filename1 = upload_path cfg now2 filename2
  <-> now1 = now2 /\ filename1 = filename2.
Proof.
  split; [| by intros [-> ->]].
  rewrite !upload_path_parts. intros Heq.
  apply append_inj_l, append_inj_l in Heq.
  destruct (split_at_first_sep "_" _ _ _ _
              (str_of_int_no "_" now1 eq_refl ltac:(discriminate))
              (str_of_int_no "_" now2 eq_refl ltac:(discriminate)) Heq) as [Hnow ->].
  by apply str_of_int_inj in Hnow as ->.
Qed.

(** ** More on the handlers *)

Section Handlers.

Variable cfg : Config.
Variable secure_filename : string -> string.

#[local] Abbreviation step := (step cfg secure_filename).
#[local] Abbreviation next := (next cfg secure_filename).
#[local] Abbreviation reachable := (reachable cfg secure_filename).

(** The row that an accepted request to [/api/print] leaves. *)
Lemma submit_print_row req env st st' resp :
  submit_print cfg secure_filename req env st = Return (st', resp) ->
  (st' = st /\ exists code msg, resp = Error code msg)
  \/ exists user_id f_filename job,
       valid_submission req user_id f_filename
       /\ resp = JobId (next_id (db st))
       /\ st' = with_job cfg job st
       /\ if ENABLE_IPP cfg
          then exists ipp_id err,
                 job = record_outcome ipp_id err (new_job user_id (secure_filename f_filename))
          else job = new_job user_id (secure_filename f_filename).
Proof.
  intros Hsubmit.
  destruct (submit_print_cases cfg secure_filename req env st st' resp Hsubmit)
    as [Hsame | (user_id & f_filename & Hvalid)]; [by left | right].
  exists user_id, f_filename. unfold with_job. destruct (ENABLE_IPP cfg) eqn:Hmode.
  - destruct (run_ipp_print_returns cfg (check_output env)
                (upload_path cfg (now env) (secure_filename f_filename)))
      as (ipp_id & err & Hrun).
    rewrite (submit_print_ipp cfg secure_filename req env st user_id f_filename
               ipp_id err Hvalid Hmode Hrun) in Hsubmit.
    injection Hsubmit as <- <-.
    exists (record_outcome ipp_id err (new_job user_id (secure_filename f_filename))).
    split; [exact Hvalid |]. split; [reflexivity |]. split; [reflexivity |].
    by exists ipp_id, err.
  - rewrite (submit_print_mock cfg secure_filename req env st user_id f_filename
               Hvalid Hmode) in Hsubmit.
    injection Hsubmit as <- <-.
    exists (new_job user_id (secure_filename f_filename)).
    split; [exact Hvalid |]. by split.
Qed.

(** X11: A request to [/api/print] is checked before anything is stored: the
    bearer token first, then the upload. A request that is turned away
    gets 401 exactly when its token is missing or invalid, 400 otherwise,
    and leaves no trace: [submit_print] changes the state only when it
    answers with the id of the new job. *)
Theorem rejected_submission_leaves_no_trace req env st st' resp :
  submit_print cfg secure_filename req env st = Return (st', resp) ->
  match resp with
  | JobId job_id =>
      job_id = next_id (db st) /\ exists user_id f_filename, valid_submission req user_id f_filename
  | Error code _ =>
      st' = st
      /\ (code = 401 \/ code = 400)
      /\ (code = 401 <-> auth_required (auth req) = inl resp)
  | JobView _ _ _ _ _ => False
  end.
Proof.
  intros Hsubmit. unfold submit_print in Hsubmit.
  destruct (auth req) as [| | user_id username] eqn:Hauth; simpl in Hsubmit.
  - injection Hsubmit as <- <-. split; [done |]. split; [by left | done].
  - injection Hsubmit as <- <-. split; [done |]. split; [by left | done].
  - destruct (file req) as [f_filename |] eqn:Hfile.
    + destruct (String.eqb_spec f_filename "") as [-> | Hname].
      * injection Hsubmit as <- <-. split; [done |]. split; [by right |].
        split; discriminate.
      * assert (Hvalid : valid_submission req user_id f_filename).
        { split; [by exists username | by split]. }
        destruct (ENABLE_IPP cfg).
        -- destruct (run_ipp_print_returns cfg (check_output env)
                       (upload_path cfg (now env) (secure_filename f_filename)))
             as (ipp_id & err & Hrun).
           rewrite Hrun in Hsubmit. injection Hsubmit as _ <-. by eauto.
        -- injection Hsubmit as _ <-. by eauto.
    + injection Hsubmit as <- <-. split; [done |]. split; [by right |].
      split; discriminate.
Qed.

Lemma record_outcome_shape ipp_id err user_id filename :
  let job := record_outcome ipp_id err (new_job user_id filename) in
  PrintJob.user_id job = user_id
  /\ PrintJob.filename job = filename
  /\ ((PrintJob.status job = printing /\ PrintJob.error job = None
       /\ exists id, PrintJob.ipp_job_id job = Some id)
      \/ (PrintJob.status job = failed /\ has_error job
          /\ PrintJob.ipp_job_id job = None)).
Proof.
  unfold record_outcome, has_error.
  destruct (Py.truthy_opt err) eqn:E; simpl.
  - split; [done |]. split; [done |]. right. by rewrite E.
  - split; [done |]. split; [done |]. left. by eauto.
Qed.




Lemma step_keeps_identity st ev st' j job :
  step st ev st' ->
  keys_below (db st) ->
  print_jobs (db st) !! j = Some job ->
  exists job',
    print_jobs (db st') !! j = Some job'
    /\ PrintJob.user_id job' = PrintJob.user_id job
    /\ PrintJob.filename job' = PrintJob.filename job.
Proof.
  intros Hstep Hkeys Hjob.
  destruct Hstep as [st req env st' resp Hsubmit | st req now user_id f_filename _ _
                    | st job_id path co ipp_id err _ _ | | st job_id _
                    | st job_id path co ipp_id err e Hwaiting _ _].
  - destruct (submit_print_effect cfg secure_filename req env st st' resp Hsubmit)
      as [-> | (job' & -> & _)]; [by eauto |].
    simpl. rewrite lookup_insert_ne; [by eauto |].
    apply Hkeys in Hjob. lia.
  - simpl. rewrite lookup_insert_ne; [by eauto |].
    apply Hkeys in Hjob. lia.
  - simpl. rewrite lookup_update_job.
    destruct (decide (job_id = j)) as [-> |]; [| by eauto].
    rewrite Hjob; simpl. eexists. split; [reflexivity |].
    unfold record_outcome. by destruct (Py.truthy_opt err).
  - by eauto.
  - simpl. unfold _async_mock_complete. rewrite lookup_update_job.
    destruct (decide (job_id = j)) as [-> |]; [| by eauto].
    rewrite Hjob; simpl. by eauto.
  - by eauto.
Qed.

(** X14: A job is never deleted and never changes hands: in every later state
    of the run its row is there with the same owner and the same
    filename, so a status query by the owner always finds it. *)
Theorem job_stays_with_owner st st' j job :
  reachable st ->
  rtc next st st' ->
  print_jobs (db st) !! j = Some job ->
  exists job',
    print_jobs (db st') !! j = Some job'
    /\ PrintJob.user_id job' = PrintJob.user_id job
    /\ PrintJob.filename job' = PrintJob.filename job
    /\ forall username,
         job_status (Bearer (PrintJob.user_id job) username) j (db st')
         = JobView j (PrintJob.filename job) (status_str (PrintJob.status job'))
             (PrintJob.error job') (PrintJob.ipp_job_id job').
Proof.
  intros Hreach Hrun Hjob.
  cut (reachable st' /\ exists job',
         print_jobs (db st') !! j = Some job'
         /\ PrintJob.user_id job' = PrintJob.user_id job
         /\ PrintJob.filename job' = PrintJob.filename job).
  { intros [_ (job' & Hjob' & Huser & Hname)]. exists job'.
    split; [done |]. split; [done |]. split; [done |].
    intros username. unfold job_status, query_job; simpl.
    by rewrite Hjob', Huser, Nat.eqb_refl, Hname. }
  revert st' Hrun. apply rtc_ind_r; [by eauto |].
  intros st1 st2 _ [ev Hstep] [Hreach1 (job1 & Hjob1 & Huser1 & Hname1)]. split.
  - eapply rtc_r; [exact Hreach1 | by exists ev].
  - apply reachable_invariant in Hreach1 as (Hkeys & _).
    destruct (step_keeps_identity st1 ev st2 j job1 Hstep Hkeys Hjob1)
      as (job2 & Hjob2 & Huser2 & Hname2).
    exists job2. split; [done |]. split; congruence.
Qed.

(** The shapes a row can have. *)
Lemma step_row_shape st ev st' :
  step st ev st' ->
  invariant cfg st ->
  (forall j job, print_jobs (db st) !! j = Some job -> row_shape cfg job) ->
  forall j job, print_jobs (db st') !! j = Some job -> row_shape cfg job.
Proof.
  intros Hstep (Hkeys & Hmode & Hhandlers & _) Hrows.
  destruct Hstep as [st req env st' resp Hsubmit | st req now user_id f_filename Hon _
                    | st job_id path co ipp_id err Hhandler _ | | st job_id Hthread
                    | st job_id path co ipp_id err e Hwaiting _ _].
  - destruct (submit_print_row req env st st' resp Hsubmit)
      as [[-> _] | (user_id & f_filename & job' & _ & _ & -> & Hjob')]; [done |].
    intros j job; simpl. rewrite lookup_insert.
    destruct (decide (next_id (db st) = j)); [| by apply Hrows].
    intros [= <-]. unfold row_shape. destruct (ENABLE_IPP cfg).
    + destruct Hjob' as (ipp_id & err & ->).
      destruct (record_outcome_shape ipp_id err user_id (secure_filename f_filename))
        as (_ & _ & [(Hs & He & Hi) | (Hs & He & Hi)]); by auto 10.
    + subst job'. by auto.
  - intros j job; simpl. rewrite lookup_insert.
    destruct (decide (next_id (db st) = j)); [| by apply Hrows].
    intros [= <-]. unfold row_shape. by auto.
  - assert (Hon : ENABLE_IPP cfg = true).
    { unfold mode_inv in Hmode. destruct (ENABLE_IPP cfg); [done |].
      destruct Hmode as [Hnone _]. by rewrite Hnone, lookup_empty in Hhandler. }
    intros j job; simpl. rewrite lookup_update_job.
    destruct (decide (job_id = j)) as [<- |]; [| by apply Hrows].
    destruct (Hhandlers job_id path Hhandler) as (job0 & Hjob0 & Hqueued & Hnone).
    rewrite Hjob0; simpl. intros [= <-].
    pose proof (Hrows job_id job0 Hjob0) as Hshape0. unfold row_shape in Hshape0 |- *.
    assert (Hipp : PrintJob.ipp_job_id job0 = None).
    { destruct Hshape0 as [(_ & _ & ?) | [(? & _) | [(? & _) | (? & _)]]];
        [done | congruence ..]. }
    unfold record_outcome, has_error. destruct (Py.truthy_opt err) eqn:E; simpl.
    + right. right. left. by rewrite E.
    + right. left. by eauto 10.
  - done.
  - unfold mode_inv in Hmode. destruct (ENABLE_IPP cfg) eqn:Hoff.
    { rewrite Hmode in Hthread. by apply elem_of_nil in Hthread. }
    destruct Hmode as [_ Hmock].
    intros j job; simpl. unfold _async_mock_complete. rewrite lookup_update_job.
    destruct (decide (job_id = j)) as [<- |]; [| by apply Hrows].
    destruct (print_jobs (db st) !! job_id) as [job0 |] eqn:Hjob0; [| done].
    simpl. intros [= <-].
    destruct (Hmock job_id job0 Hjob0) as [_ Herr].
    pose proof (Hrows job_id job0 Hjob0) as Hshape0. unfold row_shape in Hshape0 |- *.
    rewrite Hoff in *.
    assert (Hipp : PrintJob.ipp_job_id job0 = None).
    { destruct Hshape0 as [(_ & _ & ?) | [(_ & ? & _) | [(_ & ? & _) | (_ & _ & _ & ?)]]];
        [done | congruence | congruence | done]. }
    right. right. right. simpl. by auto.
  - exact Hrows.
Qed.

(** X15: Every row of every state of a run has one of four shapes: [queued]
    with no error and no identifier; [printing], under the protocol
    backend only, with an identifier and no error; [failed], under the
    protocol backend only, with an error and no identifier; [completed],
    under the simulated backend only, with neither. So [ipp_job_id] is
    set exactly on the [printing] jobs, no job of the protocol backend is
    ever [completed], and no job of the simulated backend ever fails. *)
Theorem reachable_rows_have_a_shape st j job :
  reachable st ->
  print_jobs (db st) !! j = Some job ->
  (PrintJob.status job = queued
   /\ PrintJob.error job = None /\ PrintJob.ipp_job_id job = None)
  \/ (PrintJob.status job = printing /\ ENABLE_IPP cfg = true
      /\ PrintJob.error job = None /\ exists id, PrintJob.ipp_job_id job = Some id)
  \/ (PrintJob.status job = failed /\ ENABLE_IPP cfg = true
      /\ has_error job /\ PrintJob.ipp_job_id job = None)
  \/ (PrintJob.status job = completed /\ ENABLE_IPP cfg = false
      /\ PrintJob.error job = None /\ PrintJob.ipp_job_id job = None).
Proof.
  intros Hreach Hjob.
  cut (forall j job, print_jobs (db st) !! j = Some job -> row_shape cfg job).
  { intros Hrows. exact (Hrows j job Hjob). }
  clear j job Hjob. red in Hreach. revert st Hreach.
  apply (rtc_ind_r (fun st => forall j job,
                      print_jobs (db st) !! j = Some job -> row_shape cfg job)).
  - intros j job; simpl. by rewrite lookup_empty.
  - intros st st' Hreach [ev Hstep] IH.
    apply (step_row_shape st ev st' Hstep); [| exact IH].
    exact (reachable_invariant cfg secure_filename st Hreach).
Qed.

Lemma query_job_jobs_of job_id user_id d :
  query_job job_id user_id d = jobs_of user_id d !! job_id.
Proof.
  unfold query_job, jobs_of.
  destruct (print_jobs d !! job_id) as [job |] eqn:E.
  - destruct (Nat.eqb_spec (PrintJob.user_id job) user_id) as [Heq | Hne]; symmetry.
    + by apply map_lookup_filter_Some.
    + apply map_lookup_filter_None. right. intros job'. rewrite E. by intros [= <-].
  - symmetry. apply map_lookup_filter_None. by left.
Qed.

(** X16: What a user is told about any job id depends on that user's own rows
    alone: two stores that hold the same jobs of a user answer all of
    that user's status queries alike, whatever else they hold. *)
Theorem status_depends_on_own_rows user_id username d d' :
  jobs_of user_id d = jobs_of user_id d' ->
  forall job_id,
    job_status (Bearer user_id username) job_id d
    = job_status (Bearer user_id username) job_id d'.
Proof.
  intros Hsame job_id. unfold job_status; simpl.
  by rewrite !query_job_jobs_of, Hsame.
Qed.

(** X17: A submission is invisible to everybody else: after a request to
    [/api/print] by one user, accepted or not, every other user gets the
    answers to all status queries that they got before. *)
Theorem foreign_submission_is_invisible req env st st' resp user_id username other :
  reachable st ->
  auth req = Bearer user_id username ->
  other <> user_id ->
  submit_print cfg secure_filename req env st = Return (st', resp) ->
  forall name job_id,
    job_status (Bearer other name) job_id (db st')
    = job_status (Bearer other name) job_id (db st).
Proof.
  intros Hreach Hauth Hother Hsubmit name job_id.
  apply reachable_invariant in Hreach as (Hkeys & _).
  destruct (submit_print_row req env st st' resp Hsubmit)
    as [[-> _] | (u & f & job & ([username' Hauth'] & _) & _ & -> & Hjob)]; [done |].
  rewrite Hauth in Hauth'. injection Hauth' as <- _.
  assert (Howner : PrintJob.user_id job = user_id).
  { destruct (ENABLE_IPP cfg); [| by subst job].
    destruct Hjob as (ipp_id & err & ->).
    by destruct (record_outcome_shape ipp_id err user_id (secure_filename f)) as [? _]. }
  unfold job_status, query_job; simpl. rewrite lookup_insert.
  destruct (decide (next_id (db st) = job_id)) as [<- |]; [| done].
  rewrite Howner.
  destruct (Nat.eqb_spec user_id other) as [-> |]; [done |].
  destruct (print_jobs (db st) !! next_id (db st)) as [job0 |] eqn:E; [| done].
  apply Hkeys in E. lia.
Qed.

End Handlers.

Lemma fault_with_message_fails_job_witness :
  exists st',
    submit_print ipp_config secure_filename_ascii (upload alice "a.pdf")
      (lp_raises timeout_message) init
    = Return (st', JobId 1)
    /\ print_jobs (db st') !! 1
       = Some (PrintJob.mk 1 "a.pdf" failed (Some timeout_message) None).
Proof.
  apply (fault_with_message_fails_job ipp_config secure_filename_ascii
           (upload alice "a.pdf") (lp_raises timeout_message) init 1 "a.pdf"
           ltac:(split; [by exists "alice" | split; [reflexivity | discriminate]])
           ["lp"; "-d"; "office"; "/data/uploads/1700000000_a.pdf"] timeout_message).
  - reflexivity.
  - reflexivity.
  - reflexivity.
  - discriminate.
Defined.

Lemma rejected_submission_leaves_no_trace_witness :
  init = init
  /\ (401 = 401 \/ 401 = 400)
  /\ (401 = 401 <-> auth_required (auth anonymous_upload) = inl (Error 401 "Unauthorized")).
Proof.
  apply (rejected_submission_leaves_no_trace ipp_config secure_filename_ascii
           anonymous_upload (lp_prints "") init init (Error 401 "Unauthorized")).
  reflexivity.
Defined.


Lemma job_stays_with_owner_witness :
  exists job',
    print_jobs (db completed_state) !! 1 = Some job'
    /\ PrintJob.user_id job' = 1
    /\ PrintJob.filename job' = "a.pdf"
    /\ forall username,
         job_status (Bearer 1 username) 1 (db completed_state)
         = JobView 1 "a.pdf" (status_str (PrintJob.status job'))
             (PrintJob.error job') (PrintJob.ipp_job_id job').
Proof.
  apply (job_stays_with_owner mock_config secure_filename_ascii queued_state
           completed_state 1 (new_job 1 "a.pdf")).
  - exact queued_state_reachable.
  - apply rtc_once. exists (EvComplete 1).
    apply (step_complete mock_config secure_filename_ascii queued_state 1).
    vm_compute. by left.
  - reflexivity.
Defined.

Lemma reachable_rows_have_a_shape_witness :
  let job := PrintJob.mk 1 "a.pdf" failed
               (Some "No PRINTER_URI or PRINTER_NAME configured") None in
  (PrintJob.status job = queued
   /\ PrintJob.error job = None /\ PrintJob.ipp_job_id job = None)
  \/ (PrintJob.status job = printing /\ ENABLE_IPP unconfigured_ipp_config = true
      /\ PrintJob.error job = None /\ exists id, PrintJob.ipp_job_id job = Some id)
  \/ (PrintJob.status job = failed /\ ENABLE_IPP unconfigured_ipp_config = true
      /\ has_error job /\ PrintJob.ipp_job_id job = None)
  \/ (PrintJob.status job = completed /\ ENABLE_IPP unconfigured_ipp_config = false
      /\ PrintJob.error job = None /\ PrintJob.ipp_job_id job = None).
Proof.
  intros job.
  apply (reachable_rows_have_a_shape unconfigured_ipp_config secure_filename_ascii
           failed_state 1 job).
  - exact failed_state_reachable.
  - reflexivity.
Defined.

Lemma status_depends_on_own_rows_witness :
  job_status alice 2 (db queued_state) = job_status alice 2 (db two_users_state).
Proof.
  apply (status_depends_on_own_rows 1 "alice" (db queued_state) (db two_users_state)).
  vm_compute. reflexivity.
Defined.

Lemma foreign_submission_is_invisible_witness :
  job_status alice 2 (db two_users_state) = job_status alice 2 (db queued_state).
Proof.
  apply (foreign_submission_is_invisible mock_config secure_filename_ascii
           (upload bob "b.pdf") (lp_prints "") queued_state two_users_state (JobId 2)
           2 "bob" 1).
  - exact queued_state_reachable.
  - reflexivity.
  - lia.
  - reflexivity.
Defined.

(** ** The completion thread on any store *)

Lemma db_eq d d' : print_jobs d = print_jobs d' -> next_id d = next_id d' -> d = d'.
Proof. destruct d, d'; simpl. by intros -> ->. Qed.

(** X18: [_async_mock_complete] does not look at the status it replaces: a row
    that is there becomes [completed] whatever it was, [failed] and
    [printing] included, and keeps its other columns, an [error]
    included; no other row and no key changes. *)
Theorem completion_overwrites_any_status d j job :
  print_jobs d !! j = Some job ->
  print_jobs (_async_mock_complete j d) !! j
  = Some (PrintJob.mk (PrintJob.user_id job) (PrintJob.filename job) completed
            (PrintJob.error job) (PrintJob.ipp_job_id job))
  /\ (forall k, k <> j ->
        print_jobs (_async_mock_complete j d) !! k = print_jobs d !! k)
  /\ next_id (_async_mock_complete j d) = next_id d.
Proof.
  intros Hjob. unfold _async_mock_complete. split; [| split].
  - rewrite lookup_update_job. destruct (decide (j = j)); [| done]. by rewrite Hjob.
  - intros k Hk. rewrite lookup_update_job. by destruct (decide (j = k)).
  - apply next_id_update_job.
Qed.

Lemma completion_overwrites_any_status_witness :
  print_jobs (_async_mock_complete 1 (db failed_state)) !! 1
  = Some (PrintJob.mk 1 "a.pdf" completed
            (Some "No PRINTER_URI or PRINTER_NAME configured") None)
  /\ (forall k, k <> 1 ->
        print_jobs (_async_mock_complete 1 (db failed_state)) !! k
        = print_jobs (db failed_state) !! k)
  /\ next_id (_async_mock_complete 1 (db failed_state)) = next_id (db failed_state).
Proof.
  apply (completion_overwrites_any_status (db failed_state) 1
           (PrintJob.mk 1 "a.pdf" failed
              (Some "No PRINTER_URI or PRINTER_NAME configured") None)).
  reflexivity.
Defined.

(** X19: Completion signals can arrive in any order and any number of times:
    on every store, two of them commute, a repeated one changes nothing
    more, and one for an id that names no row changes nothing at all. *)
Theorem completions_commute d j k :
  _async_mock_complete j (_async_mock_complete k d)
  = _async_mock_complete k (_async_mock_complete j d)
  /\ _async_mock_complete j (_async_mock_complete j d) = _async_mock_complete j d
  /\ (is_Some (print_jobs d !! j) \/ _async_mock_complete j d = d).
Proof.
  unfold _async_mock_complete. split; [| split].
  - apply db_eq; [| by rewrite !next_id_update_job].
    apply map_eq. intros i. rewrite !lookup_update_job.
    repeat case_decide; subst; try done.
  - apply db_eq; [| by rewrite !next_id_update_job].
    apply map_eq. intros i. rewrite !lookup_update_job.
    repeat case_decide; subst; try done.
    by destruct (print_jobs d !! i).
  - unfold update_job. destruct (print_jobs d !! j); [left; by eexists | by right].
Qed.

(** ** The second commit *)

Lemma contains_append c a b :
  Py.contains c (a +:+ b) = Py.contains c a || Py.contains c b.
Proof.
  induction a as [| d a IH]; [by rewrite append_nil |].
  rewrite append_cons; simpl. by rewrite IH, orb_assoc.
Qed.

Lemma pg_text_stored s s' : pg_text s = Some s' -> s' = s.
Proof. unfold pg_text. destruct (Py.contains NUL s); [discriminate | by intros [= <-]]. Qed.

(** A cut through text with no white space does not end in spaces. *)
Lemma substring_no_space s n m :
  no_space s -> n < String.length s -> 0 < m ->
  Py.all_chars (Ascii.eqb " ") (substring n m s) = false.
Proof.
  revert n. induction s as [| c s IH]; intros n Hs Hn Hm; simpl in Hn; [lia |].
  unfold no_space in Hs. simpl in Hs. apply andb_prop in Hs as [Hc Hs].
  destruct n as [| n].
  - destruct m as [| m]; [lia |].
    change (Ascii.eqb " " c && Py.all_chars (Ascii.eqb " ") (substring 0 m s) = false).
    assert (Hne : Ascii.eqb " " c = false).
    { apply Ascii.eqb_neq. intros <-. discriminate Hc. }
    by rewrite Hne.
  - change (Py.all_chars (Ascii.eqb " ") (substring n m s) = false).
    apply IH; [exact Hs | lia | exact Hm].
Qed.

(** Text with no white space is stored whole or refused. *)
Lemma pg_varchar_no_space n s :
  no_space s ->
  pg_varchar n s
  = if Py.contains NUL s then None
    else if (String.length s <=? n)%nat then Some s else None.
Proof.
  intros Hs. unfold pg_varchar. destruct (Py.contains NUL s); [reflexivity |].
  destruct (Nat.leb_spec (String.length s) n) as [| Hlong]; [reflexivity |].
  rewrite substring_no_space; [reflexivity | exact Hs | lia | lia].
Qed.

Lemma or_else_no_space ipp_id :
  (forall t, ipp_id = Some t -> no_space t) -> no_space (Py.or_else ipp_id "").
Proof.
  intros Hid. destruct ipp_id as [t |]; simpl; [| reflexivity].
  destruct (Py.truthy t); [by apply Hid | reflexivity].
Qed.

(** The identifier of [_run_ipp_print] holds no white space. *)
Lemma run_ipp_print_no_space cfg check_output local_path ipp_id err t :
  _run_ipp_print cfg check_output local_path = Return (ipp_id, err) ->
  ipp_id = Some t -> no_space t.
Proof.
  unfold _run_ipp_print. intros Hrun ->. revert Hrun.
  destruct (ENABLE_IPP cfg); simpl; [| discriminate].
  destruct (lp_command cfg local_path) as [cmd |]; [| discriminate].
  destruct (check_output cmd) as [out | [code output | message]]; simpl;
    [| discriminate | discriminate].
  intros [= Hscan _].
  destruct (scan_parts_some _ _ Hscan) as (part & Hin & _ & ->).
  rewrite (strip_token out part Hin).
  pose proof (split_clean out) as Hall. rewrite Forall_forall in Hall.
  by destruct (Hall part Hin).
Qed.

(** What the second commit stores of an outcome, when it stores it, is
    the outcome. *)
Lemma pg_outcome_stored ipp_id err job stored :
  PrintJob.error job = None ->
  PrintJob.ipp_job_id job = None ->
  (forall t, ipp_id = Some t -> no_space t) ->
  pg_outcome (record_outcome ipp_id err job) = Some stored ->
  stored = record_outcome ipp_id err job.
Proof.
  intros Herror Hipp Hid. unfold pg_outcome, record_outcome.
  destruct job as [user_id filename status error ipp_job_id]; simpl in *. subst.
  destruct (Py.truthy_opt err) eqn:E; simpl.
  - destruct err as [msg |]; [| discriminate E]. simpl.
    destruct (pg_text msg) as [msg' |] eqn:Hmsg; simpl; [| discriminate].
    apply pg_text_stored in Hmsg as ->. by intros [= <-].
  - rewrite (pg_varchar_no_space 128 _ (or_else_no_space ipp_id Hid)).
    destruct (Py.contains NUL (Py.or_else ipp_id "")); simpl; [discriminate |].
    destruct (String.length (Py.or_else ipp_id "") <=? 128)%nat; simpl; [| discriminate].
    by intros [= <-].
Qed.

Section SecondCommit.

Variable cfg : Config.
Variable secure_filename : string -> string.
Variables (req : PrintRequest) (env : Env) (st : State).
Variables (user_id : nat) (f_filename : string).
Hypothesis Hvalid : valid_submission req user_id f_filename.
Hypothesis Hon : ENABLE_IPP cfg = true.

Let filename := secure_filename f_filename.
Let job_id := next_id (db st).
Let path := upload_path cfg (now env) filename.

(** The handler under the protocol backend, by what the database does
    with the outcome. *)
Lemma submit_print_db_ipp ipp_id err :
  _run_ipp_print cfg (check_output env) path = Return (ipp_id, err) ->
  submit_print_db cfg secure_filename req env st
  = match pg_outcome (record_outcome ipp_id err (new_job user_id filename)) with
    | Some stored =>
        ({| db := {| print_jobs := <[job_id := stored]> (print_jobs (db st));
                     next_id := S job_id |};
            threads := threads st;
            handlers := handlers st |},
         Return (JobId job_id))
    | None =>
        ({| db := (add_job (new_job user_id filename) (db st)).1;
            threads := threads st;
            handlers := handlers st |},
         Raise commit_refused)
    end.
Proof.
  intros Hrun. destruct Hvalid as ([username Hauth] & Hfile & Hname).
  unfold submit_print_db. rewrite Hauth, Hfile; simpl.
  apply String.eqb_neq in Hname. rewrite Hname, Hon.
  unfold path, filename in Hrun. rewrite Hrun.
  unfold commit_job; simpl. rewrite lookup_insert_eq.
  destruct (pg_outcome _) as [stored |]; [| reflexivity].
  by rewrite insert_insert_eq.
Qed.

(** X7: Under the protocol backend a non-zero exit of [lp] fails the job,
    with ["lp failed: "] and the captured output as its [error] (also
    when the output is empty), unless the output holds a NUL character:
    then the second commit raises, the request ends with 500 and the job
    stays [queued] with no [error]. *)
Theorem nonzero_exit_fails_job cmd code output :
  lp_command cfg path = Some cmd ->
  check_output env cmd = Raise (CalledProcessError code output) ->
  let r := submit_print_db cfg secure_filename req env st in
  if Py.contains NUL output
  then r.2 = Raise commit_refused
       /\ print_jobs (db r.1) !! job_id
          = Some (PrintJob.mk user_id filename queued None None)
  else r.2 = Return (JobId job_id)
       /\ print_jobs (db r.1) !! job_id
          = Some (PrintJob.mk user_id filename failed (Some ("lp failed: " +:+ output)) None).
Proof.
  intros Hcmd Hout r. subst r.
  rewrite (submit_print_db_ipp None (Some ("lp failed: " +:+ output)))
    by (by apply (run_ipp_print_nonzero cfg (check_output env) path cmd code output)).
  unfold pg_outcome, record_outcome, pg_text; simpl.
  rewrite append_nil.
  destruct (Py.contains NUL output); simpl.
  - split; [reflexivity | by rewrite lookup_insert_eq].
  - split; [reflexivity | by rewrite lookup_insert_eq].
Qed.

(** X12: Under the protocol backend a valid request to [/api/print] ends
    in one of two ways. It answers with the job id, and then the outcome
    is settled: the job is [printing], with an identifier of at most 128
    characters (that may be empty) and no error, or [failed], with an
    error and no identifier. Or the database refuses the outcome of
    [_run_ipp_print], the second commit raises, the request ends with
    500, and the job stays [queued]. No exception comes from
    [_run_ipp_print] itself. *)
Theorem protocol_backend_settles_in_request :
  let r := submit_print_db cfg secure_filename req env st in
  match r.2 with
  | Return resp =>
      resp = JobId job_id
      /\ exists job,
           print_jobs (db r.1) !! job_id = Some job
           /\ PrintJob.user_id job = user_id
           /\ ((PrintJob.status job = printing /\ PrintJob.error job = None
                /\ exists id, PrintJob.ipp_job_id job = Some id
                              /\ (String.length id <= 128)%nat)
               \/ (PrintJob.status job = failed /\ has_error job
                   /\ PrintJob.ipp_job_id job = None))
  | Raise e =>
      e = commit_refused
      /\ print_jobs (db r.1) !! job_id
         = Some (PrintJob.mk user_id filename queued None None)
      /\ exists ipp_id err,
           _run_ipp_print cfg (check_output env) path = Return (ipp_id, err)
           /\ pg_outcome (record_outcome ipp_id err (new_job user_id filename)) = None
  end.
Proof.
  intros r. subst r.
  destruct (run_ipp_print_returns cfg (check_output env) path) as (ipp_id & err & Hrun).
  rewrite (submit_print_db_ipp ipp_id err Hrun).
  destruct (pg_outcome (record_outcome ipp_id err (new_job user_id filename)))
    as [stored |] eqn:Hstored; simpl.
  - split; [reflexivity |]. exists stored.
    split; [by rewrite lookup_insert_eq |].
    pose proof Hstored as Hsame.
    apply pg_outcome_stored in Hsame;
      [| reflexivity | reflexivity
       | intros t; by apply (run_ipp_print_no_space cfg (check_output env) path ipp_id err)].
    subst stored. revert Hstored.
    unfold pg_outcome, record_outcome, has_error.
    destruct (Py.truthy_opt err) eqn:E; simpl.
    + intros _. split; [reflexivity |]. right. by rewrite E.
    + rewrite (pg_varchar_no_space 128 (Py.or_else ipp_id ""))
        by (apply or_else_no_space; intros t;
            by apply (run_ipp_print_no_space cfg (check_output env) path ipp_id err)).
      destruct (Py.contains NUL (Py.or_else ipp_id "")); simpl; [discriminate |].
      destruct (Nat.leb_spec (String.length (Py.or_else ipp_id "")) 128) as [Hlen |];
        simpl; [| discriminate].
      intros _. split; [reflexivity |]. left. by eauto 10.
  - split; [reflexivity |]. split; [by rewrite lookup_insert_eq |]. by eauto.
Qed.

(** When [submit_print_db] answers, [submit_print] gives the same answer
    and the same state: the handler with a store that accepts every
    value is right about every request that does not end with 500. *)
Lemma submit_print_db_returns_ipp st' resp :
  submit_print_db cfg secure_filename req env st = (st', Return resp) ->
  submit_print cfg secure_filename req env st = Return (st', resp).
Proof.
  destruct (run_ipp_print_returns cfg (check_output env) path) as (ipp_id & err & Hrun).
  rewrite (submit_print_db_ipp ipp_id err Hrun).
  destruct (pg_outcome (record_outcome ipp_id err (new_job user_id filename)))
    as [stored |] eqn:Hstored; [| discriminate].
  apply pg_outcome_stored in Hstored;
    [| reflexivity | reflexivity
     | intros t; by apply (run_ipp_print_no_space cfg (check_output env) path ipp_id err)].
  subst stored. intros [= <- <-].
  by apply (submit_print_ipp cfg secure_filename req env st user_id f_filename ipp_id err).
Qed.

End SecondCommit.

Lemma submit_print_db_returns cfg secure_filename req env st st' resp :
  submit_print_db cfg secure_filename req env st = (st', Return resp) ->
  submit_print cfg secure_filename req env st = Return (st', resp).
Proof.
  intros Hdb.
  destruct (auth req) as [| | user_id username] eqn:Hauth.
  - unfold submit_print_db in Hdb. unfold submit_print. rewrite Hauth in *.
    simpl in *. by injection Hdb as <- <-.
  - unfold submit_print_db in Hdb. unfold submit_print. rewrite Hauth in *.
    simpl in *. by injection Hdb as <- <-.
  - destruct (file req) as [f_filename |] eqn:Hfile.
    + destruct (String.eqb_spec f_filename "") as [-> | Hname].
      * unfold submit_print_db in Hdb. unfold submit_print. rewrite Hauth, Hfile in *.
        simpl in *. by injection Hdb as <- <-.
      * assert (Hvalid : valid_submission req user_id f_filename).
        { split; [by exists username | by split]. }
        destruct (ENABLE_IPP cfg) eqn:Hmode.
        -- by apply (submit_print_db_returns_ipp cfg secure_filename req env st
                       user_id f_filename Hvalid Hmode).
        -- rewrite (submit_print_mock cfg secure_filename req env st user_id f_filename
                      Hvalid Hmode).
           unfold submit_print_db in Hdb. rewrite Hauth, Hfile in Hdb. simpl in Hdb.
           apply String.eqb_neq in Hname. rewrite Hname, Hmode in Hdb.
           by injection Hdb as <- <-.
    + unfold submit_print_db in Hdb. unfold submit_print. rewrite Hauth, Hfile in *.
      simpl in *. by injection Hdb as <- <-.
Qed.

Lemma nonzero_exit_fails_job_witness :
  let r := submit_print_db ipp_config secure_filename_ascii (upload alice "a.pdf")
             (lp_exits 1 nul_output) init in
  r.2 = Raise commit_refused
  /\ print_jobs (db r.1) !! 1 = Some (PrintJob.mk 1 "a.pdf" queued None None).
Proof.
  apply (nonzero_exit_fails_job ipp_config secure_filename_ascii (upload alice "a.pdf")
           (lp_exits 1 nul_output) init 1 "a.pdf"
           ltac:(split; [by exists "alice" | split; [reflexivity | discriminate]])
           ltac:(reflexivity)
           ["lp"; "-d"; "office"; "/data/uploads/1700000000_a.pdf"] 1 nul_output).
  - reflexivity.
  - reflexivity.
Defined.

Lemma protocol_backend_settles_in_request_witness :
  let r := submit_print_db ipp_config secure_filename_ascii (upload alice "a.pdf")
             (lp_prints two_ids_output) init in
  JobId 1 = JobId 1
  /\ exists job,
       print_jobs (db r.1) !! 1 = Some job
       /\ PrintJob.user_id job = 1
       /\ ((PrintJob.status job = printing /\ PrintJob.error job = None
            /\ exists id, PrintJob.ipp_job_id job = Some id
                          /\ (String.length id <= 128)%nat)
           \/ (PrintJob.status job = failed /\ has_error job
               /\ PrintJob.ipp_job_id job = None)).
Proof.
  exact (protocol_backend_settles_in_request ipp_config secure_filename_ascii
           (upload alice "a.pdf") (lp_prints two_ids_output) init 1 "a.pdf"
           ltac:(split; [by exists "alice" | split; [reflexivity | discriminate]])
           ltac:(reflexivity)).
Defined.

(** A non-zero exit with nothing printed: the job fails with the bare
    prefix as its [error]. *)
Example silent_failure_is_recorded :
  let r := submit_print_db ipp_config secure_filename_ascii (upload alice "a.pdf")
             (lp_exits 1 "") init in
  r.2 = Return (JobId 1)
  /\ print_jobs (db r.1) !! 1
     = Some (PrintJob.mk 1 "a.pdf" failed (Some "lp failed: ") None).
Proof. split; vm_compute; reflexivity. Qed.

(** C5, where the code departs from it: [lp] exits with a non-zero status
    and its output holds a NUL character. [_run_ipp_print] catches the
    failure and returns it as an error text; the second session of
    [submit_print] writes that text to [error]; the commit raises, no
    [except] is there to catch it, the request ends with 500 instead of
    the job id, and the job stays [queued] with the failure recorded
    nowhere. *)
Theorem client_failure_ends_in_500 :
  let r := submit_print_db ipp_config secure_filename_ascii (upload alice "a.pdf")
             (lp_exits 1 nul_output) init in
  _run_ipp_print ipp_config (check_output (lp_exits 1 nul_output))
    "/data/uploads/1700000000_a.pdf"
  = Return (None, Some ("lp failed: " +:+ nul_output))
  /\ r.2 = Raise commit_refused
  /\ print_jobs (db r.1) !! 1 = Some (PrintJob.mk 1 "a.pdf" queued None None).
Proof. repeat split; vm_compute; reflexivity. Qed.

(** The same end on a successful exit of [lp] with an identifier of more
    than 128 characters. *)
Example long_id_ends_in_500 :
  let r := submit_print_db ipp_config secure_filename_ascii (upload alice "a.pdf")
             (lp_prints ("request id is " +:+ long_id +:+ " (1 file(s))")) init in
  String.length long_id = 133
  /\ r.2 = Raise commit_refused
  /\ print_jobs (db r.1) !! 1 = Some (PrintJob.mk 1 "a.pdf" queued None None).
Proof. repeat split; vm_compute; reflexivity. Qed.

(** A run in which the database refuses the outcome: the row of the
    request is left [queued] and no handler waits for it any more. *)
Example refused_outcome_in_a_run :
  exists st,
    reachable ipp_config secure_filename_ascii st
    /\ print_jobs (db st) !! 1 = Some (PrintJob.mk 1 "a.pdf" queued None None)
    /\ handlers st = ∅.
Proof.
  eexists. split.
  - eapply rtc_l.
    { exists (EvAccept (upload alice "a.pdf") 1700000000).
      apply (step_accept ipp_config secure_filename_ascii init (upload alice "a.pdf")
               1700000000 1 "a.pdf"); [reflexivity | by apply upload_valid]. }
    apply rtc_once. eexists.
    apply (step_dispatch_refused ipp_config secure_filename_ascii _ 1
             "/data/uploads/1700000000_a.pdf"
             (check_output (lp_exits 1 nul_output))
             None (Some ("lp failed: " +:+ nul_output)) commit_refused); reflexivity.
  - split; [reflexivity |]. simpl. apply delete_insert_id. reflexivity.
Qed.
